(** * The etcd traffic driver [parallel_driver_generate_traffic.py]

    A shallow embedding of the three procedures of the driver
    ([simulate_traffic], [validate_puts], [validate_time]) and of the
    top-level script, followed by the properties that the specification
    states about them.

    The two lists the script builds ([kvs] and [times]) are Python list
    objects: they live in a heap and are passed around by reference.
    Everything the script calls but does not define (the [helper] module,
    [time.time], the Antithesis assertions, [print]) is reached through
    the interface [Env]; each such call is recorded in a trace, so that the
    properties can speak about the requests that were really issued.
    Times and percentiles are IEEE doubles, as in Python and numpy. *)

From Stdlib Require Import ZArith Floats Lia.
From Stdlib Require Import Sorting.Sorted Sorting.Permutation.
From stdpp Require Import gmap strings list.

(** The decimal literals of the script ([0.95], [0.001], ...) stand, as in
    Python, for the nearest double. *)
Set Warnings "-inexact-float".

(** ** Python data *)

(** Identity of a Python list object. *)
Definition loc := nat.

(** What [helper.get_request] hands back as [database_value]: a string,
    or Python's [None]. *)
Definition dbval := option string.

(** The elements the script stores in its lists: [(key, value)] tuples in
    [kvs], floats (elapsed seconds, IEEE doubles) in [times]. *)
Inductive elem :=
| Pair (key value : string)
| Float (t : float).

(** The ways a run can stop without returning. *)
Inductive fault :=
| TypeError      (* subscripting or averaging an element of the wrong kind *)
| EmptySample    (* [np.percentile] applied to an empty sequence *)
| BadRef.        (* a reference to no list object; unreachable from Python *)

(** The lines the script prints, by their format string. *)
Inductive line :=
| PutOk (key value : string)
| PutFailed (key value : string)
| TrafficSimulated
| GetFailed (key : string)
| Mismatch
| ValidationOk
| Exceeded (pct95 : float)
| Passed (pct95 : float).

(** One entry of the trace per call that leaves the script. *)
Inductive event :=
| Connect
| GenRequests (n : Z)
| GenString (s : string)
| Clock (t : float)
| Put (key value : string) (success : bool)
| Get (key : string) (success : bool) (database_value : dbval)
| Sometimes (cond : bool) (name : string)
| Always (cond : bool) (name : string)
| Print (l : line).

(** ** The collaborators *)

(** The [helper] module and the clock.  [World] is whatever they depend on
    and change: the cluster, the random source, the wall clock.  Calls are
    taken to return; a collaborator that raises ends the process and is not
    described here. *)
Class Env := {
  World : Type;
  Client : Type;
  Error : Type;
  connect_to_host : World -> Client * World;
  generate_requests : World -> Z * World;
  generate_random_string : World -> string * World;
  put_request : Client -> string -> string -> World -> (bool * Error) * World;
  get_request : Client -> string -> World -> (bool * Error * dbval) * World;
  time_time : World -> float * World
}.

(** ** numpy's percentile, on doubles *)

(** [np.percentile(a, q)] with the default method ([linear]) on a list of
    doubles, operation by operation as numpy (1.22 and later) computes it
    in [_quantile], [_get_indexes], [_get_gamma] and [_lerp]. *)
Module Np.

Local Open Scope float_scope.

(** [np.isnan] *)
Definition is_nan (x : float) : bool := negb (x =? x).

(** An integer index as a double. *)
Definition of_Z (z : Z) : float :=
  if (z <? 0)%Z then - of_uint63 (Uint63.of_Z (- z)) else of_uint63 (Uint63.of_Z z).

(** [np.floor(x).astype(np.intp)], for a finite [x]. *)
Definition floor_Z (x : float) : Z :=
  match Prim2SF x with
  | S754_finite s m e =>
      let z := if s then Zneg m else Zpos m in
      if (0 <=? e)%Z then (z * 2 ^ e)%Z else (z / 2 ^ (- e))%Z
  | _ => 0%Z
  end.

(** The data in increasing order, which is how [arr.partition] leaves the
    entries that are read. *)
Fixpoint insert_sorted (x : float) (l : list float) : list float :=
  match l with
  | [] => [x]
  | y :: l' => if x <=? y then x :: y :: l' else y :: insert_sorted x l'
  end.

Fixpoint sort (l : list float) : list float :=
  match l with
  | [] => []
  | x :: l' => insert_sorted x (sort l')
  end.

(** [_lerp(a, b, t)] *)
Definition lerp (a b t : float) : float :=
  let diff_b_a := b - a in
  let lerp_interpolation := a + diff_b_a * t in
  if 0.5 <=? t then b - diff_b_a * (1 - t) else lerp_interpolation.

(** [_get_indexes]: the indexes of the two neighbours of the virtual
    index among [n] values; [-1] is the last one. *)
Definition get_indexes (virtual_index : float) (n : Z) : Z * Z :=
  let previous := floor_Z virtual_index in
  let next := (previous + 1)%Z in
  let '(previous, next) :=
    if of_Z (n - 1) <=? virtual_index then ((-1)%Z, (-1)%Z) else (previous, next) in
  let '(previous, next) :=
    if virtual_index <? 0 then (0%Z, 0%Z) else (previous, next) in
  if is_nan virtual_index then ((-1)%Z, (-1)%Z) else (previous, next).

(** [arr[i]], a negative [i] counting from the end. *)
Definition item (arr : list float) (i : Z) : float :=
  nth (Z.to_nat (if (i <? 0)%Z then Z.of_nat (length arr) + i else i)%Z) arr nan.

Definition percentile (a : list float) (q : float) : option float :=
  match a with
  | [] => None
  | _ :: _ =>
      let n := Z.of_nat (length a) in
      let quantile := q / 100 in
      let virtual_index := of_Z (n - 1) * quantile in
      let '(previous_index, next_index) := get_indexes virtual_index n in
      let arr := sort a in
      let gamma := virtual_index - of_Z previous_index in
      let result := lerp (item arr previous_index) (item arr next_index) gamma in
      Some (if existsb is_nan a then nan else result)
  end.

End Np.

(** ** The script *)

Section Driver.

Context {E : Env}.

Record state := {
  world : World;
  heap : gmap loc (list elem);
  trace : list event
}.

Inductive res (A : Type) :=
| Ret (a : A) (s : state)
| Raise (f : fault)
| OutOfFuel.
Arguments Ret {A} a s.
Arguments Raise {A} f.
Arguments OutOfFuel {A}.

Definition M (A : Type) := state -> res A.

Definition ret {A} (a : A) : M A := fun s => Ret a s.

Definition bind {A B} (m : M A) (k : A -> M B) : M B :=
  fun s => match m s with
           | Ret a s' => k a s'
           | Raise f => Raise f
           | OutOfFuel => OutOfFuel
           end.

Definition raise {A} (f : fault) : M A := fun _ => Raise f.

Notation "'let*' p ':=' m 'in' k" := (bind m (fun p => k))
  (at level 10, p pattern, m at level 100, k at level 200).
Notation "m >> k" := (bind m (fun _ => k))
  (at level 100, k at level 200, right associativity).

(** A call to a collaborator: it may change the world, and is logged. *)
Definition call {A} (f : World -> A * World) (ev : A -> event) : M A :=
  fun s => let (a, w) := f (world s) in
           Ret a {| world := w; heap := heap s; trace := trace s ++ [ev a] |}.

(** A call that only reports ([print], [sometimes], [always]). *)
Definition emit (ev : event) : M unit :=
  fun s => Ret tt {| world := world s; heap := heap s; trace := trace s ++ [ev] |}.

(** [[]]: a new, empty list object. *)
Definition new_list : M loc :=
  fun s => let r := fresh (dom (heap s)) in
           Ret r {| world := world s; heap := <[r := []]> (heap s); trace := trace s |}.

(** [l.append(x)]: the object is changed in place. *)
Definition append (r : loc) (x : elem) : M unit :=
  fun s => match heap s !! r with
           | Some l => Ret tt {| world := world s; heap := <[r := l ++ [x]]> (heap s);
                                 trace := trace s |}
           | None => Raise BadRef
           end.

(** The list iterator's step: the element at position [i] of the list as
    it is now, or nothing when [i] is past its end. *)
Definition next_item (r : loc) (i : nat) : M (option elem) :=
  fun s => match heap s !! r with
           | Some l => Ret (l !! i) s
           | None => Raise BadRef
           end.

(** [kv[0], kv[1]] *)
Definition subscripts (kv : elem) : M (string * string) :=
  match kv with
  | Pair key value => ret (key, value)
  | Float _ => raise TypeError
  end.

Definition put_name : string := "Client can make successful put requests".
Definition get_name : string := "Client can make successful get requests".

(** The body of [for _ in range(num_requests)], [n] iterations left. *)
Fixpoint put_loop (n : nat) (client : Client) (kvs times : loc) : M unit :=
  match n with
  | O => ret tt
  | S n' =>
      let* key := call generate_random_string GenString in
      let* value := call generate_random_string GenString in
      let* stime := call time_time Clock in
      let* (success, error) :=
        call (put_request client key value) (fun r => Put key value (fst r)) in
      let* etime := call time_time Clock in
      let elapsed_time := (etime - stime)%float in
      append times (Float elapsed_time) >>
      emit (Sometimes success put_name) >>
      (if success
       then append kvs (Pair key value) >> emit (Print (PutOk key value))
       else emit (Print (PutFailed key value))) >>
      put_loop n' client kvs times
  end.

Definition simulate_traffic : M (loc * loc) :=
  let* client := call connect_to_host (fun _ => Connect) in
  let* num_requests := call generate_requests GenRequests in
  let* kvs := new_list in
  let* times := new_list in
  put_loop (Z.to_nat num_requests) client kvs times >>
  emit (Print TrafficSimulated) >>
  ret (kvs, times).

(** [for kv in kvs], the iterator standing at position [i].  The result
    is the mismatch the body returned with, if it did.  [fuel] bounds the
    number of iterations: the iterator reads the list as it is at each
    step, so the loop has no bound of its own. *)
Fixpoint get_loop (fuel : nat) (client : Client) (kvs times : loc) (i : nat)
  : M (option (string * dbval)) :=
  match fuel with
  | O => fun _ => OutOfFuel
  | S fuel' =>
      let* item := next_item kvs i in
      match item with
      | None => ret None
      | Some kv =>
          let* (key, value) := subscripts kv in
          let* stime := call time_time Clock in
          let* (success, error, database_value) :=
            call (get_request client key) (fun r => Get key (fst (fst r)) (snd r)) in
          let* etime := call time_time Clock in
          let elapsed_time := (etime - stime)%float in
          append times (Float elapsed_time) >>
          emit (Sometimes success get_name) >>
          if negb success
          then emit (Print (GetFailed key)) >>
               get_loop fuel' client kvs times (S i)
          else if bool_decide (Some value <> database_value)
          then emit (Print Mismatch) >>
               ret (Some (value, database_value))
          else get_loop fuel' client kvs times (S i)
      end
  end.

Definition validate_puts (fuel : nat) (kvs : loc)
  : M (bool * option (string * dbval) * loc) :=
  let* times := new_list in
  let* client := call connect_to_host (fun _ => Connect) in
  let* found := get_loop fuel client kvs times 0 in
  match found with
  | Some mismatch => ret (false, Some mismatch, times)
  | None => emit (Print ValidationOk) >> ret (true, None, times)
  end.

(** What [np.percentile] makes of the list object it is given: the
    floats in it, or nothing if some element is not a number. *)
Fixpoint as_floats (l : list elem) : option (list float) :=
  match l with
  | [] => Some []
  | Float t :: l' => option_map (cons t) (as_floats l')
  | Pair _ _ :: _ => None
  end.

Definition np_percentile (times : loc) (q : float) : M float :=
  fun s => match heap s !! times with
           | None => Raise BadRef
           | Some l =>
               match as_floats l with
               | None => Raise TypeError
               | Some samples =>
                   match Np.percentile samples q with
                   | None => Raise EmptySample
                   | Some p => Ret p s
                   end
               end
           end.

Definition validate_time (times : loc) (threshold : float) : M (bool * float) :=
  let* p := np_percentile times 0.95 in
  let pct95 := (p * 1000)%float in
  if (threshold <=? pct95)%float
  then emit (Print (Exceeded pct95)) >> ret (false, pct95)
  else emit (Print (Passed pct95)) >> ret (true, pct95).

Definition put_time_name : string := "95th percentile response times for puts <10 ms".
Definition consistent_name : string := "Database key values stay consistent".
Definition get_time_name : string := "95th percentile response times for gets <10 ms".

(** The script's top level. *)
Definition main (fuel : nat) : M unit :=
  let* (kvs, times) := simulate_traffic in
  let* (performant, response) := validate_time times 10 in
  emit (Always performant put_time_name) >>
  let* (values_stay_consistent, mismatch, times) := validate_puts fuel kvs in
  emit (Always values_stay_consistent consistent_name) >>
  let* (performant, response) := validate_time times 10 in
  emit (Always performant get_time_name).

End Driver.

Arguments Ret {E A} a s.
Arguments Raise {E A} f.
Arguments OutOfFuel {E A}.

(** ** Reading a trace *)

(** The put requests of a trace, in order: key, value, reported success. *)
Definition puts (tr : list event) : list (string * string * bool) :=
  omap (fun e => match e with Put k v ok => Some (k, v, ok) | _ => None end) tr.

(** The get requests of a trace, in order: key, reported success, value. *)
Definition gets (tr : list event) : list (string * bool * dbval) :=
  omap (fun e => match e with Get k ok dv => Some (k, ok, dv) | _ => None end) tr.

(** The pairs of the puts that reported success. *)
Definition acknowledged (tr : list event) : list (string * string) :=
  omap (fun e => match e with Put k v true => Some (k, v) | _ => None end) tr.

Definition pair_elem (kv : string * string) : elem := Pair kv.1 kv.2.

(** ** Reading a run *)

Section Readings.

Context {E : Env}.

(** What the generator answers when asked in state [s]: the script asks
    right after connecting. *)
Definition request_count (s : state) : Z :=
  (generate_requests (connect_to_host (world s)).2).1.

(** The state a run ends in ([s0] if it does not return). *)
Definition final {A} (r : res A) (s0 : state) : state :=
  match r with Ret _ s' => s' | _ => s0 end.

(** The boolean [validate_puts] returns next to its mismatch record. *)
Definition all_matched (found : option (string * dbval)) : bool :=
  match found with None => true | Some _ => false end.

(** What the reads of a run may rely on: a property [I] of the world
    that the clock and the gets keep, and a property [R] of the answer
    of every get issued in such a world. *)
Definition reads_keep (I : World -> Prop) (R : string -> bool -> dbval -> Prop) : Prop :=
  (forall w, I w -> I (time_time w).2) /\
  (forall c k w, I w -> I (get_request c k w).2) /\
  (forall c k w, I w -> R k (get_request c k w).1.1.1 (get_request c k w).1.2).

Definition answers (R : string -> bool -> dbval -> Prop)
  (gs : list (string * bool * dbval)) : Prop :=
  Forall (fun g => R g.1.1 g.1.2 g.2) gs.

End Readings.

(** The shape of a reading of the accepted pairs: the get requests issued
    for them, one per pair and in order, and what the reading ends with.
    A failed get and a get that returns the written value move on to the
    next pair; a get that returns something else ends the reading. *)
Inductive validated :
  list (string * string) -> list (string * bool * dbval) ->
  option (string * dbval) -> Prop :=
| validated_end :
    validated [] [] None
| validated_failed k v dv kvs gs found :
    validated kvs gs found ->
    validated ((k, v) :: kvs) ((k, false, dv) :: gs) found
| validated_equal k v kvs gs found :
    validated kvs gs found ->
    validated ((k, v) :: kvs) ((k, true, Some v) :: gs) found
| validated_mismatch k v dv kvs :
    dv <> Some v ->
    validated ((k, v) :: kvs) [(k, true, dv)] (Some (v, dv)).


(** ** A small cluster to run the script against *)

Module Demo.

(** One store shared by all members, the latest write of a key first;
    requests on the keys in [down] fail; the random strings and the clock
    are scripted. *)
Record cluster := {
  kv : list (string * string);
  down : list string;
  names : list string;
  count : Z;
  clock : float
}.

Fixpoint stored (key : string) (l : list (string * string)) : option string :=
  match l with
  | [] => None
  | (k, v) :: l' => if String.eqb key k then Some v else stored key l'
  end.

Definition unreachable (key : string) (w : cluster) : bool :=
  existsb (String.eqb key) (down w).

Definition connect (w : cluster) : unit * cluster := (tt, w).

Definition requests (w : cluster) : Z * cluster := (count w, w).

Definition random_string (w : cluster) : string * cluster :=
  match names w with
  | [] => ("", w)
  | s :: rest =>
      (s, {| kv := kv w; down := down w; names := rest; count := count w;
             clock := clock w |})
  end.

Definition put (_ : unit) (key value : string) (w : cluster)
  : bool * string * cluster :=
  if unreachable key w then (false, "unavailable", w)
  else (true, "",
        {| kv := (key, value) :: kv w; down := down w; names := names w;
           count := count w; clock := clock w |}).

Definition get (_ : unit) (key : string) (w : cluster)
  : bool * string * dbval * cluster :=
  if unreachable key w then (false, "unavailable", None, w)
  else match stored key (kv w) with
       | Some v => (true, "", Some v, w)
       | None => (false, "not found", None, w)
       end.

Definition now (w : cluster) : float * cluster :=
  (clock w,
   {| kv := kv w; down := down w; names := names w; count := count w;
      clock := (clock w + 0.001)%float |}).

#[export] Instance env : Env := {|
  World := cluster;
  Client := unit;
  Error := string;
  connect_to_host := connect;
  generate_requests := requests;
  generate_random_string := random_string;
  put_request := put;
  get_request := get;
  time_time := now
|}.

Definition start (w : cluster) (h : gmap loc (list elem)) : state :=
  {| world := w; heap := h; trace := [] |}.

(** A cluster holding [store], with the keys in [failing] out of reach. *)
Definition holding (store : list (string * string)) (failing : list string) : cluster :=
  {| kv := store; down := failing; names := []; count := 0; clock := 0 |}.

(** What of the world the gets depend on. *)
Definition contents (w : cluster) : list (string * string) * list string :=
  (kv w, down w).

(** Three pairs to validate, held by the list object [0]. *)
Definition three : list (string * string) :=
  [("k0", "v0"); ("k1", "v1"); ("k2", "v2")].

Definition three_heap : gmap loc (list elem) := {[ 0 := pair_elem <$> three ]}.

(** The store as the three puts left it. *)
Definition intact : state :=
  start (holding [("k0", "v0"); ("k1", "v1"); ("k2", "v2")] []) three_heap.

(** The same, with [k1] out of reach. *)
Definition partitioned : state :=
  start (holding [("k0", "v0"); ("k1", "v1"); ("k2", "v2")] ["k1"]) three_heap.

(** The store answering [v2] for [k1], where [v1] was written. *)
Definition overwritten : state :=
  start (holding [("k0", "v0"); ("k1", "v2"); ("k2", "v2")] []) three_heap.

(** Five requests, the second of which fails. *)
Definition five : state :=
  start {| kv := []; down := ["b"];
           names := ["a"; "1"; "b"; "2"; "c"; "3"; "d"; "4"; "e"; "5"];
           count := 5; clock := 0 |} ∅.

(** The latencies 1 ms, 2 ms, ..., 100 ms, in seconds. *)
Definition hundred_ms : list float :=
  (fun i => Np.of_Z (Z.of_nat i) / 1000)%float <$> seq 1 100.

Definition sampled (samples : list float) : state :=
  start (holding [] []) {[ 0 := Float <$> samples ]}.

End Demo.


(** ** Doubles in order *)

(** [x <= y] on doubles, as Python decides it (false when either is NaN). *)
Definition float_le (x y : float) : Prop := (x <=? y)%float = true.



(** ** The rounds of the two loops *)

(** The [sometimes] and [always] assertions of a trace: condition and name. *)
Definition sometimes_of (tr : list event) : list (bool * string) :=
  omap (fun e => match e with Sometimes c n => Some (c, n) | _ => None end) tr.

Definition always_of (tr : list event) : list (bool * string) :=
  omap (fun e => match e with Always c n => Some (c, n) | _ => None end) tr.

(** The readings of the clock and the random strings drawn, in order. *)
Definition clocks (tr : list event) : list float :=
  omap (fun e => match e with Clock t => Some t | _ => None end) tr.

Definition strings (tr : list event) : list string :=
  omap (fun e => match e with GenString x => Some x | _ => None end) tr.

(** The number of times a member of the cluster was asked for. *)
Definition connects (tr : list event) : nat :=
  length (omap (fun e => match e with Connect => Some tt | _ => None end) tr).

(** Clock readings taken two by two, before and after: the time between. *)
Fixpoint elapsed (cs : list float) : list float :=
  match cs with
  | stime :: etime :: cs' => (etime - stime)%float :: elapsed cs'
  | _ => []
  end.

(** Strings taken two by two: a key, then a value. *)
Fixpoint pairs_up (l : list string) : list (string * string) :=
  match l with
  | key :: value :: l' => (key, value) :: pairs_up l'
  | _ => []
  end.

(** One iteration of the loop of [simulate_traffic]: what was drawn, read
    off the clock and answered. *)
Record put_round := {
  p_key : string;
  p_value : string;
  p_stime : float;
  p_success : bool;
  p_etime : float
}.

(** The calls of such an iteration. *)
Definition put_block (r : put_round) : list event :=
  [GenString (p_key r); GenString (p_value r); Clock (p_stime r);
   Put (p_key r) (p_value r) (p_success r); Clock (p_etime r);
   Sometimes (p_success r) put_name;
   Print (if p_success r then PutOk (p_key r) (p_value r)
          else PutFailed (p_key r) (p_value r))].

(** One iteration of the loop of [validate_puts]. *)
Record get_round := {
  g_key : string;
  g_value : string;
  g_stime : float;
  g_success : bool;
  g_found : dbval;
  g_etime : float
}.

Definition get_block (r : get_round) : list event :=
  [Clock (g_stime r); Get (g_key r) (g_success r) (g_found r);
   Clock (g_etime r); Sometimes (g_success r) get_name] ++
  (if negb (g_success r) then [Print (GetFailed (g_key r))]
   else if bool_decide (Some (g_value r) <> g_found r) then [Print Mismatch]
   else []).

(** The latency the script records for an iteration. *)
Definition put_latency (r : put_round) : elem := Float (p_etime r - p_stime r)%float.

Definition get_latency (r : get_round) : elem := Float (g_etime r - g_stime r)%float.

(** The lines printed, in order. *)
Definition prints (tr : list event) : list line :=
  omap (fun e => match e with Print l => Some l | _ => None end) tr.

(** ** A cluster that loses requests *)

Module Flaky.

(** One store; every other get is lost on the way, whatever the store
    holds.  A get never changes the store. *)
Record cluster := {
  kv : list (string * string);
  lost : bool
}.

Definition connect (w : cluster) : unit * cluster := (tt, w).

Definition requests (w : cluster) : Z * cluster := (0%Z, w).

Definition random_string (w : cluster) : string * cluster := ("", w).

Definition put (_ : unit) (key value : string) (w : cluster)
  : bool * string * cluster :=
  (true, "", {| kv := (key, value) :: kv w; lost := lost w |}).

Definition get (_ : unit) (key : string) (w : cluster)
  : bool * string * dbval * cluster :=
  if lost w then (false, "timeout", None, {| kv := kv w; lost := false |})
  else match Demo.stored key (kv w) with
       | Some v => (true, "", Some v, {| kv := kv w; lost := true |})
       | None => (false, "not found", None, {| kv := kv w; lost := true |})
       end.

Definition now (w : cluster) : float * cluster := (0%float, w).

#[export] Instance env : Env := {|
  World := cluster;
  Client := unit;
  Error := string;
  connect_to_host := connect;
  generate_requests := requests;
  generate_random_string := random_string;
  put_request := put;
  get_request := get;
  time_time := now
|}.

(** The pair [("k", "v")] was accepted; the store holds [w] for [k]; the
    next get will be lost. *)
Definition changed : state :=
  {| world := {| kv := [("k", "w")]; lost := true |};
     heap := {[ 0 := [Pair "k" "v"] ]};
     trace := [] |}.

End Flaky.

(** ** More states of the small cluster *)

(** The generator answering a count below zero. *)
Definition no_requests : state :=
  Demo.start {| Demo.kv := []; Demo.down := []; Demo.names := ["a"; "1"];
                Demo.count := -3; Demo.clock := 0 |} ∅.

(** The key [a] put twice, with [1] and then with [4]; the store holds the
    later value. *)
Definition repeated_pairs : list (string * string) := [("a", "1"); ("b", "2"); ("a", "4")].

Definition repeated : state :=
  Demo.start (Demo.holding [("a", "4"); ("b", "2"); ("a", "1")] [])
             {[ 0 := pair_elem <$> repeated_pairs ]}.

(** No put was acknowledged: the list to validate is empty. *)
Definition nothing_accepted : state :=
  Demo.start (Demo.holding [] []) {[ 0 := [] ]}.

(** * Properties *)

(** ** Running the monad *)

Section Run.

Context {E : Env}.

Lemma bind_ret {A B} (a : A) (k : A -> M B) s : bind (ret a) k s = k a s.
Proof. reflexivity. Qed.

Lemma bind_bind {A B C} (m : M A) (k : A -> M B) (k' : B -> M C) s :
  bind (bind m k) k' s = bind m (fun a => bind (k a) k') s.
Proof. unfold bind. destruct (m s); reflexivity. Qed.

Lemma bind_call {A B} (f : World -> A * World) ev (k : A -> M B) s :
  bind (call f ev) k s =
  k (f (world s)).1
    {| world := (f (world s)).2; heap := heap s;
       trace := trace s ++ [ev (f (world s)).1] |}.
Proof. unfold bind, call. destruct (f (world s)); reflexivity. Qed.

Lemma bind_emit {B} ev (k : unit -> M B) s :
  bind (emit ev) k s =
  k tt {| world := world s; heap := heap s; trace := trace s ++ [ev] |}.
Proof. reflexivity. Qed.

Lemma bind_new_list {B} (k : loc -> M B) s :
  bind new_list k s =
  k (fresh (dom (heap s)))
    {| world := world s; heap := <[fresh (dom (heap s)) := []]> (heap s);
       trace := trace s |}.
Proof. reflexivity. Qed.

Lemma bind_append {B} r x l (k : unit -> M B) s :
  heap s !! r = Some l ->
  bind (append r x) k s =
  k tt {| world := world s; heap := <[r := l ++ [x]]> (heap s); trace := trace s |}.
Proof. intros H. unfold bind, append. rewrite H. reflexivity. Qed.

Lemma bind_next_item {B} r i l (k : option elem -> M B) s :
  heap s !! r = Some l ->
  bind (next_item r i) k s = k (l !! i) s.
Proof. intros H. unfold bind, next_item. rewrite H. reflexivity. Qed.

Lemma bind_Ret {A B} (m : M A) (k : A -> M B) s a s' :
  m s = Ret a s' -> bind m k s = k a s'.
Proof. intros H. unfold bind. rewrite H. reflexivity. Qed.

Lemma bind_call_eq {A B} (f : World -> A * World) ev (k : A -> M B) s a w :
  f (world s) = (a, w) ->
  bind (call f ev) k s =
  k a {| world := w; heap := heap s; trace := trace s ++ [ev a] |}.
Proof. intros H. rewrite bind_call, H. reflexivity. Qed.

(** A new list object is none of the existing ones. *)
Lemma fresh_loc_None (h : gmap loc (list elem)) : h !! fresh (dom h) = None.
Proof. apply not_elem_of_dom. apply is_fresh. Qed.

Lemma fresh_loc_ne (h : gmap loc (list elem)) r l :
  h !! r = Some l -> r <> fresh (dom h).
Proof. intros H ->. rewrite fresh_loc_None in H. discriminate. Qed.

End Run.

(** ** Reading a trace, piecewise *)

Lemma puts_app tr1 tr2 : puts (tr1 ++ tr2) = puts tr1 ++ puts tr2.
Proof. apply omap_app. Qed.

Lemma gets_app tr1 tr2 : gets (tr1 ++ tr2) = gets tr1 ++ gets tr2.
Proof. apply omap_app. Qed.

Lemma acknowledged_app tr1 tr2 :
  acknowledged (tr1 ++ tr2) = acknowledged tr1 ++ acknowledged tr2.
Proof. apply omap_app. Qed.

(** Every acknowledged pair is the pair of a put that reported success. *)
Lemma acknowledged_put tr k v : (k, v) ∈ acknowledged tr <-> Put k v true ∈ tr.
Proof.
  unfold acknowledged. rewrite list_elem_of_omap. split.
  - intros (e & He & Heq). destruct e as [| | | |k' v' [|]| | | |]; try discriminate.
    injection Heq as -> ->. exact He.
  - intros H. exists (Put k v true). split; [exact H | reflexivity].
Qed.

(** No more pairs are acknowledged than puts were issued. *)
Lemma acknowledged_le_puts tr : length (acknowledged tr) <= length (puts tr).
Proof.
  induction tr as [|e tr IH]; [reflexivity|].
  destruct e as [| | | |k v [|]| | | |]; simpl; lia.
Qed.


(** Symbolic execution of the next call to a collaborator: its result is
    named [a] and the world it leaves [w]. *)
Tactic Notation "step_call" ident(a) ident(w) :=
  lazymatch goal with
  | |- context [bind (call ?f ?ev) ?k ?s] =>
      let H := fresh "Hcall" in
      destruct (f (world s)) as [a w] eqn:H;
      rewrite (bind_call_eq f ev k s a w H);
      cbn [world heap trace fst snd] in *
  end.

(** ** The traffic generator *)

Section Traffic.

Context {E : Env}.

Lemma put_loop_spec n : forall client kvs times s lk lt,
  kvs <> times -> heap s !! kvs = Some lk -> heap s !! times = Some lt ->
  exists s' evs ts,
    put_loop n client kvs times s = Ret tt s' /\
    trace s' = trace s ++ evs /\
    heap s' !! kvs = Some (lk ++ (pair_elem <$> acknowledged evs)) /\
    heap s' !! times = Some (lt ++ (Float <$> ts)) /\
    (forall r, r <> kvs -> r <> times -> heap s' !! r = heap s !! r) /\
    length ts = n /\ length (puts evs) = n.
Proof.
  induction n as [|n IH]; intros client kvs times s lk lt Hne Hk Ht.
  - exists s, [], []. simpl. rewrite !app_nil_r. repeat split; auto.
  - cbn [put_loop].
    step_call key w1. step_call value w2. step_call stime w3.
    step_call r w4. destruct r as [success error].
    step_call etime w5.
    rewrite (bind_append _ _ lt) by exact Ht.
    rewrite bind_emit. cbn [world heap trace].
    destruct success.
    + rewrite bind_bind, (bind_append _ _ lk), bind_emit
        by (cbn; rewrite lookup_insert_ne by congruence; exact Hk).
      cbn [world heap trace].
      edestruct (IH client kvs times) as (s' & evs & ts & Hrun & Htr & Hk' & Ht' & Hfr & Hlen & Hputs);
        [exact Hne | | | rewrite Hrun].
      * cbn. apply lookup_insert_eq.
      * cbn. rewrite lookup_insert_ne by congruence. apply lookup_insert_eq.
      * cbn in *. eexists s', _, (_ :: ts). split; [reflexivity|].
        rewrite Htr, Hk', Ht'. rewrite <- !app_assoc.
        split; [reflexivity|].
        rewrite !acknowledged_app, !puts_app. cbn.
        repeat split; try (simpl; lia).
        intros r Hr1 Hr2. rewrite Hfr by assumption.
        rewrite !lookup_insert_ne by congruence. reflexivity.
    + rewrite bind_emit. cbn [world heap trace].
      edestruct (IH client kvs times) as (s' & evs & ts & Hrun & Htr & Hk' & Ht' & Hfr & Hlen & Hputs);
        [exact Hne | | | rewrite Hrun].
      * cbn. rewrite lookup_insert_ne by congruence. exact Hk.
      * cbn. apply lookup_insert_eq.
      * cbn in *. eexists s', _, (_ :: ts). split; [reflexivity|].
        rewrite Htr, Hk', Ht'. rewrite <- !app_assoc.
        split; [reflexivity|].
        rewrite !acknowledged_app, !puts_app. cbn.
        repeat split; try (simpl; lia).
        intros r Hr1 Hr2. rewrite Hfr by assumption.
        rewrite !lookup_insert_ne by congruence. reflexivity.
Qed.


Lemma simulate_traffic_spec s :
  exists kvs times s' evs ts,
    simulate_traffic s = Ret (kvs, times) s' /\
    trace s' = trace s ++ evs /\
    kvs <> times /\ heap s !! kvs = None /\ heap s !! times = None /\
    heap s' !! kvs = Some (pair_elem <$> acknowledged evs) /\
    heap s' !! times = Some (Float <$> ts) /\
    (forall r, r <> kvs -> r <> times -> heap s' !! r = heap s !! r) /\
    length ts = Z.to_nat (request_count s) /\
    length (puts evs) = Z.to_nat (request_count s).
Proof.
  unfold simulate_traffic, request_count.
  step_call client w1. step_call num_requests w2.
  rewrite !bind_new_list. cbn [world heap trace].
  set (kvs := fresh (dom (heap s))).
  set (h1 := <[kvs := []]> (heap s)).
  set (times := fresh (dom h1)).
  assert (Hk0 : heap s !! kvs = None) by apply fresh_loc_None.
  assert (Ht1 : h1 !! times = None) by apply fresh_loc_None.
  assert (Hne : kvs <> times).
  { apply (fresh_loc_ne h1 kvs []). apply lookup_insert_eq. }
  assert (Ht0 : heap s !! times = None).
  { unfold h1 in Ht1. rewrite lookup_insert_ne in Ht1 by exact Hne. exact Ht1. }
  edestruct (put_loop_spec (Z.to_nat num_requests) client kvs times)
    as (s' & evs & ts & Hrun & Htr & Hk' & Ht' & Hfr & Hlen & Hputs);
    [exact Hne | | | rewrite (bind_Ret _ _ _ _ _ Hrun)].
  - cbn. rewrite lookup_insert_ne by congruence. apply lookup_insert_eq.
  - cbn. apply lookup_insert_eq.
  - rewrite bind_emit. cbn in *.
    eexists kvs, times, _, _, ts. split; [reflexivity|].
    cbn. rewrite Htr, <- !app_assoc. split; [reflexivity|].
    rewrite !acknowledged_app, !puts_app. cbn.
    rewrite !app_nil_r, Hcall0. cbn. repeat split; try assumption.
    intros r Hr1 Hr2. rewrite Hfr by assumption.
    unfold h1. rewrite !lookup_insert_ne by congruence. reflexivity.
Qed.

End Traffic.

(** ** The consistency validator *)


Section Validator.

Context {E : Env}.


Lemma get_loop_spec client kvs times pairs fuel : forall i s lt,
  kvs <> times ->
  heap s !! kvs = Some (pair_elem <$> pairs) ->
  heap s !! times = Some lt ->
  length pairs - i < fuel ->
  exists found s' evs ts,
    get_loop fuel client kvs times i s = Ret found s' /\
    trace s' = trace s ++ evs /\
    heap s' = <[times := lt ++ (Float <$> ts)]> (heap s) /\
    length ts = length (gets evs) /\
    puts evs = [] /\
    validated (drop i pairs) (gets evs) found /\
    (forall I R, reads_keep I R -> I (world s) ->
                 I (world s') /\ answers R (gets evs)).
Proof.
  induction fuel as [|fuel IH]; intros i s lt Hne Hk Ht Hfuel; [lia|].
  cbn [get_loop]. rewrite (bind_next_item _ _ _ _ _ Hk).
  rewrite list_lookup_fmap.
  destruct (pairs !! i) as [[k v]|] eqn:Hi; cbn [fmap option_fmap option_map pair_elem fst snd].
  - rewrite (drop_S _ _ _ Hi).
    pose proof (lookup_lt_Some _ _ _ Hi) as Hlt.
    unfold pair_elem. cbn [subscripts fst snd]. rewrite bind_ret.
    step_call stime w1. step_call r w2. destruct r as [[success error] dv].
    step_call etime w3.
    rewrite (bind_append _ _ lt) by exact Ht.
    rewrite bind_emit. cbn [world heap trace fst snd].
    assert (Hkeep : forall I R, reads_keep I R -> I (world s) -> I w3 /\ R k success dv).
    { intros I R (Hclock & Hget & Hans) H0.
      pose proof (Hclock _ H0) as H1. rewrite Hcall in H1. cbn in H1.
      pose proof (Hget client k _ H1) as H2.
      pose proof (Hans client k _ H1) as H3. rewrite Hcall0 in H2, H3.
      cbn in H2, H3.
      pose proof (Hclock _ H2) as H4. rewrite Hcall1 in H4. cbn in H4. auto. }
    assert (Hnext : forall extra s1 s' evs ts,
               world s1 = w3 ->
               heap s1 = <[times := lt ++ [Float (etime - stime)]]> (heap s) ->
               trace s1 = trace s ++ [Clock stime; Get k success dv; Clock etime;
                                      Sometimes success get_name] ++ extra ->
               gets extra = [] -> puts extra = [] ->
               trace s' = trace s1 ++ evs ->
               heap s' = <[times := (lt ++ [Float (etime - stime)]) ++ (Float <$> ts)]> (heap s1) ->
               length ts = length (gets evs) -> puts evs = [] ->
               (forall I R, reads_keep I R -> I (world s1) ->
                            I (world s') /\ answers R (gets evs)) ->
               exists evs' ts',
                 trace s' = trace s ++ evs' /\
                 heap s' = <[times := lt ++ (Float <$> ts')]> (heap s) /\
                 length ts' = length (gets evs') /\ puts evs' = [] /\
                 gets evs' = (k, success, dv) :: gets evs /\
                 (forall I R, reads_keep I R -> I (world s) ->
                              I (world s') /\ answers R (gets evs'))).
    { intros extra s1 s' evs ts Hw1 Hh1 Ht1 Hge Hpe Htr Hh Hlen Hputs Hinv.
      exists ([Clock stime; Get k success dv; Clock etime;
               Sometimes success get_name] ++ extra ++ evs),
             ((etime - stime)%float :: ts).
      rewrite Htr, Hh, Ht1, Hh1.
      rewrite insert_insert_eq, <- !app_assoc.
      rewrite !gets_app, !puts_app, Hputs, Hge, Hpe.
      cbn. split_and!; [congruence ..|].
      intros I R HIR H0. destruct (Hkeep I R HIR H0) as [H3 HR].
      rewrite <- Hw1 in H3. destruct (Hinv I R HIR H3) as [H' Hall].
      split; [exact H' | constructor; [exact HR | exact Hall]]. }
    destruct success; cbn [negb].
    + case_bool_decide as Hdv.
      * rewrite bind_emit. cbn [world heap trace].
        eexists (Some (v, dv)), _, _, [(etime - stime)%float].
        split; [reflexivity|]. cbn [world heap trace].
        rewrite <- !app_assoc. split; [reflexivity|].
        rewrite !gets_app, !puts_app. cbn.
        split_and!; try reflexivity.
        -- apply validated_mismatch. congruence.
        -- intros I R HIR H0. destruct (Hkeep I R HIR H0) as [H3 HR].
           split; [exact H3 | constructor; [exact HR | constructor]].
      * assert (dv = Some v) as ->.
        { destruct (decide (Some v = dv)); [congruence | contradiction]. }
        match goal with |- context [get_loop _ _ _ _ _ ?s1] =>
          destruct (IH (S i) s1 (lt ++ [Float (etime - stime)]))
            as (found & s' & evs & ts & Hrun & Htr & Hh & Hlen & Hputs & Hval & Hinv);
          [ exact Hne
          | cbn; rewrite lookup_insert_ne by congruence; exact Hk
          | cbn; apply lookup_insert_eq
          | lia
          | destruct (Hnext [] s1 s' evs ts)
              as (evs' & ts' & Htr' & Hh' & Hlen' & Hputs' & Hgets' & Hinv');
            try reflexivity; try assumption;
            try (cbn; rewrite <- !app_assoc; reflexivity) ]
        end.
        exists found, s', evs', ts'.
        split_and!; try assumption.
        rewrite Hgets'. apply validated_equal, Hval.
    + rewrite bind_emit. cbn [world heap trace].
      match goal with |- context [get_loop _ _ _ _ _ ?s1] =>
        destruct (IH (S i) s1 (lt ++ [Float (etime - stime)]))
          as (found & s' & evs & ts & Hrun & Htr & Hh & Hlen & Hputs & Hval & Hinv);
        [ exact Hne
        | cbn; rewrite lookup_insert_ne by congruence; exact Hk
        | cbn; apply lookup_insert_eq
        | lia
        | destruct (Hnext [Print (GetFailed k)] s1 s' evs ts)
            as (evs' & ts' & Htr' & Hh' & Hlen' & Hputs' & Hgets' & Hinv');
          try reflexivity; try assumption;
          try (cbn; rewrite <- !app_assoc; reflexivity) ]
      end.
      exists found, s', evs', ts'.
      split_and!; try assumption.
      rewrite Hgets'. apply validated_failed, Hval.
  - exists None, s, [], [].
    rewrite drop_ge by (apply lookup_ge_None; exact Hi).
    cbn. rewrite !app_nil_r. split_and!; try reflexivity.
    + rewrite insert_id by exact Ht. reflexivity.
    + constructor.
    + intros I R _ H0. split; [exact H0 | constructor].
Qed.



Lemma validate_puts_spec fuel kvs pairs s :
  heap s !! kvs = Some (pair_elem <$> pairs) ->
  length pairs < fuel ->
  exists found times s' evs ts,
    validate_puts fuel kvs s = Ret (all_matched found, found, times) s' /\
    trace s' = trace s ++ evs /\
    heap s !! times = None /\
    heap s' = <[times := Float <$> ts]> (heap s) /\
    length ts = length (gets evs) /\
    puts evs = [] /\
    validated pairs (gets evs) found /\
    (forall I R, reads_keep I R -> (forall w, I w -> I (connect_to_host w).2) ->
                 I (world s) -> I (world s') /\ answers R (gets evs)).
Proof.
  intros Hk Hfuel. unfold validate_puts.
  rewrite bind_new_list. cbn [world heap trace].
  set (times := fresh (dom (heap s))).
  assert (Ht0 : heap s !! times = None) by apply fresh_loc_None.
  assert (Hne : kvs <> times) by (apply (fresh_loc_ne _ _ _ Hk)).
  step_call client w1.
  match goal with |- context [bind (get_loop _ _ _ _ _) _ ?s1] =>
    destruct (get_loop_spec client kvs times pairs fuel 0 s1 [])
      as (found & s' & evs & ts & Hrun & Htr & Hh & Hlen & Hputs & Hval & Hinv);
    [ exact Hne
    | cbn; rewrite lookup_insert_ne by congruence; exact Hk
    | cbn; apply lookup_insert_eq
    | lia
    | rewrite (bind_Ret _ _ _ _ _ Hrun) ]
  end.
  cbn [world heap trace drop] in *.
  assert (Hconn : forall I R, reads_keep I R ->
                    (forall w, I w -> I (connect_to_host w).2) ->
                    I (world s) -> I (world s') /\ answers R (gets evs)).
  { intros I R HIR Hc H0. apply Hinv; [exact HIR|].
    specialize (Hc _ H0). rewrite Hcall in Hc. exact Hc. }
  rewrite insert_insert_eq in Hh.
  destruct found as [mismatch|]; cbn [all_matched].
  - exists (Some mismatch), times, s', (Connect :: evs), ts.
    split_and!; try assumption; try reflexivity.
    rewrite Htr, <- app_assoc. reflexivity.
  - rewrite bind_emit. cbn.
    eexists None, times, _, ([Connect] ++ evs ++ [Print ValidationOk]), ts.
    split; [reflexivity|].
    cbn [world heap trace]. rewrite !gets_app, !puts_app, Hputs. cbn.
    rewrite !app_nil_r.
    split_and!; try assumption; try reflexivity.
    rewrite Htr, <- !app_assoc. reflexivity.
Qed.

End Validator.

(** *** Facts about readings *)

(** One get per pair, for a first part of the pairs. *)
Lemma validated_length kvs gs found :
  validated kvs gs found -> length gs <= length kvs.
Proof. induction 1; simpl; lia. Qed.

(** The gets are issued for the keys of the pairs, in their order. *)
Lemma validated_keys kvs gs found :
  validated kvs gs found -> gs.*1.*1 = take (length gs) kvs.*1.
Proof. induction 1; cbn; rewrite ?take_0; f_equal; auto. Qed.

(** A reading that ends without a mismatch has read every pair. *)
Lemma validated_complete kvs gs :
  validated kvs gs None -> length gs = length kvs.
Proof.
  intros H. remember None as found eqn:Hf.
  induction H; simpl; try discriminate; auto.
Qed.

(** A reading that ends with a mismatch ends at the pair it is about. *)
Lemma validated_found kvs gs v dv :
  validated kvs gs (Some (v, dv)) ->
  exists i k, length gs = S i /\ kvs !! i = Some (k, v) /\
              gs !! i = Some (k, true, dv) /\ dv <> Some v.
Proof.
  intros H. remember (Some (v, dv)) as found eqn:Hf.
  induction H as [|k0 v0 dv0 kvs gs found H IH|k0 v0 kvs gs found H IH|k0 v0 dv0 kvs Hne].
  - discriminate.
  - destruct (IH Hf) as (i & k & Hlen & Hk & Hg & Hd).
    exists (S i), k. simpl. auto.
  - destruct (IH Hf) as (i & k & Hlen & Hk & Hg & Hd).
    exists (S i), k. simpl. auto.
  - injection Hf as -> ->. exists 0, k0. auto.
Qed.

(** The first get that succeeds with another value than the written one
    ends the reading, and is reported. *)
Lemma validated_stops kvs gs found : validated kvs gs found ->
  forall i k v k' dv,
    kvs !! i = Some (k, v) -> gs !! i = Some (k', true, dv) -> dv <> Some v ->
    found = Some (v, dv) /\ length gs = S i.
Proof.
  induction 1 as [|k0 v0 dv0 kvs gs found H IH|k0 v0 kvs gs found H IH|k0 v0 dv0 kvs Hne];
    intros i k v k' dv Hk Hg Hd.
  - discriminate.
  - destruct i as [|i]; [discriminate|].
    destruct (IH i k v k' dv Hk Hg Hd) as [-> Hl]. simpl. auto.
  - destruct i as [|i].
    + simpl in *. congruence.
    + destruct (IH i k v k' dv Hk Hg Hd) as [-> Hl]. simpl. auto.
  - destruct i as [|i]; [|discriminate].
    simpl in *. injection Hk as -> ->. injection Hg as -> ->. auto.
Qed.

(** With every get failing or returning the written value, the reading
    finds no mismatch. *)
Lemma validated_clean kvs gs found : validated kvs gs found ->
  (forall i k v k' ok dv,
     kvs !! i = Some (k, v) -> gs !! i = Some (k', ok, dv) ->
     ok = false \/ dv = Some v) ->
  found = None.
Proof.
  induction 1 as [|k0 v0 dv0 kvs gs found H IH|k0 v0 kvs gs found H IH|k0 v0 dv0 kvs Hne];
    intros Hall.
  - reflexivity.
  - apply IH. intros i. apply (Hall (S i)).
  - apply IH. intros i. apply (Hall (S i)).
  - destruct (Hall 0 k0 v0 k0 true dv0 eq_refl eq_refl); [discriminate | contradiction].
Qed.

(** Two readings of the same pairs whose gets are answered alike go the
    same way. *)
Lemma validated_same (R : string -> bool -> dbval -> Prop) kvs gs found :
  (forall k ok dv ok' dv', R k ok dv -> R k ok' dv' -> ok = ok' /\ dv = dv') ->
  validated kvs gs found ->
  forall gs' found',
    validated kvs gs' found' ->
    Forall (fun g => R g.1.1 g.1.2 g.2) gs ->
    Forall (fun g => R g.1.1 g.1.2 g.2) gs' ->
    gs = gs' /\ found = found'.
Proof.
  intros Hfun.
  induction 1 as [|k0 v0 dv0 kvs gs found H IH|k0 v0 kvs gs found H IH|k0 v0 dv0 kvs Hne];
    intros gs' found' H' HR HR'; inversion H'; subst;
    inversion HR; subst; try (inversion HR'; subst); cbn in *;
    try (match goal with
         | H1 : R ?k _ _, H2 : R ?k _ _ |- _ =>
             destruct (Hfun _ _ _ _ _ H1 H2); subst
         end);
    try discriminate; try contradiction; try congruence; auto.
  - edestruct IH as [-> ->]; eauto.
  - edestruct IH as [-> ->]; eauto.
Qed.

(** ** The latency checker *)

(** *** The order of doubles, from their specification *)

Module FloatOrder.

(** Case analysis on the comparisons of exponents and mantissas. *)
Ltac cases_compare :=
  repeat match goal with
  | |- context [Pos.compare_cont Eq ?a ?b] =>
      change (Pos.compare_cont Eq a b) with (Pos.compare a b)
  | H : context [Pos.compare_cont Eq ?a ?b] |- _ =>
      change (Pos.compare_cont Eq a b) with (Pos.compare a b) in H
  | H : context [Z.compare ?a ?b] |- _ => destruct (Z.compare_spec a b); cbn in H
  | |- context [Z.compare ?a ?b] => destruct (Z.compare_spec a b); cbn
  | H : context [Pos.compare ?a ?b] |- _ => destruct (Pos.compare_spec a b); cbn in H
  | |- context [Pos.compare ?a ?b] => destruct (Pos.compare_spec a b); cbn
  end.

Lemma SFleb_trans x y z :
  SFleb x y = true -> SFleb y z = true -> SFleb x z = true.
Proof.
  unfold SFleb.
  destruct x as [sx|sx| |sx mx ex], y as [sy|sy| |sy my ey], z as [sz|sz| |sz mz ez];
    cbn; try discriminate; try reflexivity;
    repeat match goal with s : bool |- _ => destruct s end;
    cbn; try discriminate; try reflexivity;
    intros H1 H2; cases_compare; try discriminate; try reflexivity; try lia.
Qed.



Lemma SFleb_false_ltb x y :
  x <> S754_nan -> y <> S754_nan -> SFleb x y = false <-> SFltb y x = true.
Proof.
  unfold SFleb, SFltb.
  destruct x as [sx|sx| |sx mx ex], y as [sy|sy| |sy my ey];
    cbn; try congruence;
    repeat match goal with s : bool |- _ => destruct s end;
    cbn; intros _ _; (split; intros H1);
    cases_compare; try discriminate; try reflexivity; try lia.
Qed.

Lemma SFeqb_nan x : SFeqb x x = false -> x = S754_nan.
Proof.
  unfold SFeqb. destruct x as [s|s| |s m e]; cbn; try reflexivity;
    try (destruct s; discriminate).
  destruct s; rewrite Z.compare_refl;
    change (Pos.compare_cont Eq m m) with (Pos.compare m m);
    rewrite Pos.compare_refl; discriminate.
Qed.

End FloatOrder.

Module NpFacts.

Import Np.
Local Open Scope float_scope.

Lemma is_nan_false x : is_nan x = false -> Prim2SF x <> S754_nan.
Proof.
  unfold is_nan. rewrite FloatAxioms.eqb_spec. intros H Hn.
  rewrite Hn in H. discriminate H.
Qed.

Lemma leb_trans x y z : float_le x y -> float_le y z -> float_le x z.
Proof. unfold float_le. rewrite !FloatAxioms.leb_spec. apply FloatOrder.SFleb_trans. Qed.



(** Of two numbers, the first does not reach the second exactly when it
    is below it. *)
Lemma leb_false_ltb x y :
  is_nan x = false -> is_nan y = false -> (x <=? y) = false <-> (y <? x) = true.
Proof.
  intros Hx Hy. rewrite FloatAxioms.leb_spec, FloatAxioms.ltb_spec.
  apply FloatOrder.SFleb_false_ltb; apply is_nan_false; assumption.
Qed.







(** A percentile of a sample that is not empty is computed. *)
Lemma percentile_some samples q :
  samples <> [] -> exists p, percentile samples q = Some p.
Proof.
  intros Hne. unfold percentile. destruct samples as [|x l]; [contradiction|].
  destruct (get_indexes _ _). eexists. reflexivity.
Qed.





End NpFacts.

Section Latency.

Context {E : Env}.

Lemma as_floats_fmap samples : as_floats (Float <$> samples) = Some samples.
Proof.
  induction samples as [|t samples IH]; [reflexivity|].
  cbn. rewrite IH. reflexivity.
Qed.

(** [validate_time] on a list of floats whose percentile is [p]. *)
Lemma validate_time_spec times threshold s samples p :
  heap s !! times = Some (Float <$> samples) ->
  Np.percentile samples 0.95 = Some p ->
  validate_time times threshold s =
  Ret (negb (threshold <=? p * 1000)%float, (p * 1000)%float)
      {| world := world s; heap := heap s;
         trace := trace s ++
                  [Print (if (threshold <=? p * 1000)%float
                          then Exceeded (p * 1000) else Passed (p * 1000))] |}.
Proof.
  intros Hh Hp. unfold validate_time, np_percentile, bind at 1.
  rewrite Hh, as_floats_fmap, Hp.
  destruct (threshold <=? p * 1000)%float; reflexivity.
Qed.

End Latency.

(** * The properties the specification states *)

Section Claims.

Context {E : Env}.

(** C3.  In every run of [simulate_traffic], the list of accepted pairs it
    returns holds exactly the pairs of the puts of that run that reported
    success, in their order: each of its entries is the pair of such a put,
    and it is no longer than the number of puts issued. *)
Theorem simulate_traffic_accepted (s : state) :
  exists kvs times s' evs accepted,
    simulate_traffic s = Ret (kvs, times) s' /\
    trace s' = trace s ++ evs /\
    heap s' !! kvs = Some (pair_elem <$> accepted) /\
    accepted = acknowledged evs /\
    (forall k v, (k, v) ∈ accepted -> Put k v true ∈ evs) /\
    length accepted <= length (puts evs).
Proof.
  destruct (simulate_traffic_spec s)
    as (kvs & times & s' & evs & ts & Hrun & Htr & _ & _ & _ & Hk & _).
  exists kvs, times, s', evs, (acknowledged evs).
  split_and!; try assumption; try reflexivity.
  - intros k v. apply acknowledged_put.
  - apply acknowledged_le_puts.
Qed.

(** C4.  When the request-count generator answers [n] (not negative),
    [simulate_traffic] issues exactly [n] puts and returns a list of
    exactly [n] latencies, whatever the puts report. *)
Theorem simulate_traffic_attempts (s : state) (n : Z) :
  request_count s = n -> (0 <= n)%Z ->
  exists kvs times s' evs ts,
    simulate_traffic s = Ret (kvs, times) s' /\
    trace s' = trace s ++ evs /\
    heap s' !! times = Some (Float <$> ts) /\
    Z.of_nat (length (puts evs)) = n /\
    Z.of_nat (length ts) = n.
Proof.
  intros Hn Hpos.
  destruct (simulate_traffic_spec s)
    as (kvs & times & s' & evs & ts & Hrun & Htr & _ & _ & _ & _ & Ht & _ & Hlen & Hputs).
  exists kvs, times, s', evs, ts.
  rewrite Hn in Hlen, Hputs.
  split_and!; try assumption; lia.
Qed.

End Claims.

(** The generator fixed to 5, the second put failing: five puts, five
    latencies. *)
Lemma simulate_traffic_attempts_five :
  exists kvs times s' evs ts,
    simulate_traffic Demo.five = Ret (kvs, times) s' /\
    trace s' = trace Demo.five ++ evs /\
    heap s' !! times = Some (Float <$> ts) /\
    Z.of_nat (length (puts evs)) = 5%Z /\
    Z.of_nat (length ts) = 5%Z.
Proof.
  apply (simulate_traffic_attempts Demo.five 5); [reflexivity | lia].
Defined.

Example simulate_traffic_five_run :
  match simulate_traffic Demo.five with
  | Ret (kvs, times) s' =>
      heap s' !! kvs = Some [Pair "a" "1"; Pair "c" "3"; Pair "d" "4"; Pair "e" "5"] /\
      puts (trace s') = [("a", "1", true); ("b", "2", false); ("c", "3", true);
                         ("d", "4", true); ("e", "5", true)] /\
      length <$> heap s' !! times = Some 5
  | _ => False
  end.
Proof. vm_compute. auto. Qed.

Section ValidatorClaims.

Context {E : Env}.

(** C1.  [validate_puts] on a list of accepted pairs returns; and if, in
    that run, the get issued for the pair at position [i] succeeds with a
    value [dv] other than the written value [v], then what it returns is
    [(False, (v, dv), times)], and that get is the last one issued: the
    gets of the run are those for the first [i + 1] keys. *)
Theorem validate_puts_stops_at_mismatch fuel kvs pairs (s : state) :
  heap s !! kvs = Some (pair_elem <$> pairs) ->
  length pairs < fuel ->
  exists b mismatch times s' evs ts,
    validate_puts fuel kvs s = Ret (b, mismatch, times) s' /\
    trace s' = trace s ++ evs /\
    heap s' !! times = Some (Float <$> ts) /\
    forall i k v dv,
      pairs !! i = Some (k, v) ->
      gets evs !! i = Some (k, true, dv) ->
      dv <> Some v ->
      b = false /\ mismatch = Some (v, dv) /\
      length (gets evs) = S i /\
      (gets evs).*1.*1 = take (S i) pairs.*1.
Proof.
  intros Hk Hfuel.
  destruct (validate_puts_spec fuel kvs pairs s Hk Hfuel)
    as (found & times & s' & evs & ts & Hrun & Htr & _ & Hh & _ & _ & Hval & _).
  exists (all_matched found), found, times, s', evs, ts.
  split_and!; try assumption.
  - rewrite Hh. apply lookup_insert_eq.
  - intros i k v dv Hi Hg Hd.
    destruct (validated_stops _ _ _ Hval i k v k dv Hi Hg Hd) as [-> Hlen].
    split_and!; try reflexivity; try assumption.
    rewrite <- Hlen. eapply validated_keys, Hval.
Qed.

(** C2.  [validate_puts] on a list of accepted pairs returns; and if every
    get of that run reports failure or returns the written value of its
    pair, then what it returns is [(True, None, times)], every pair
    having been read. *)
Theorem validate_puts_all_matched fuel kvs pairs (s : state) :
  heap s !! kvs = Some (pair_elem <$> pairs) ->
  length pairs < fuel ->
  exists b mismatch times s' evs ts,
    validate_puts fuel kvs s = Ret (b, mismatch, times) s' /\
    trace s' = trace s ++ evs /\
    heap s' !! times = Some (Float <$> ts) /\
    ((forall i k v k' ok dv,
        pairs !! i = Some (k, v) ->
        gets evs !! i = Some (k', ok, dv) ->
        ok = false \/ dv = Some v) ->
     b = true /\ mismatch = None /\ length (gets evs) = length pairs).
Proof.
  intros Hk Hfuel.
  destruct (validate_puts_spec fuel kvs pairs s Hk Hfuel)
    as (found & times & s' & evs & ts & Hrun & Htr & _ & Hh & _ & _ & Hval & _).
  exists (all_matched found), found, times, s', evs, ts.
  split_and!; try assumption.
  - rewrite Hh. apply lookup_insert_eq.
  - intros Hall. pose proof (validated_clean _ _ _ Hval Hall) as ->.
    split_and!; try reflexivity. apply validated_complete, Hval.
Qed.

(** C9.  The list of latencies [validate_puts] returns has one entry per
    get issued.  When no mismatch is reported that is one per accepted
    pair; when the get for the pair at position [i] (counting from 0) finds
    the mismatch, it has [i + 1] entries, the latency of that get being
    the last. *)
Theorem validate_puts_times_length fuel kvs pairs (s : state) :
  heap s !! kvs = Some (pair_elem <$> pairs) ->
  length pairs < fuel ->
  exists b mismatch times s' evs ts,
    validate_puts fuel kvs s = Ret (b, mismatch, times) s' /\
    trace s' = trace s ++ evs /\
    heap s' !! times = Some (Float <$> ts) /\
    length ts = length (gets evs) /\
    (mismatch = None -> b = true /\ length ts = length pairs) /\
    (forall v dv, mismatch = Some (v, dv) ->
       b = false /\
       exists i k, pairs !! i = Some (k, v) /\ gets evs !! i = Some (k, true, dv) /\
                   dv <> Some v /\ length ts = S i) /\
    (forall i k v dv,
       pairs !! i = Some (k, v) -> gets evs !! i = Some (k, true, dv) ->
       dv <> Some v -> length ts = S i).
Proof.
  intros Hk Hfuel.
  destruct (validate_puts_spec fuel kvs pairs s Hk Hfuel)
    as (found & times & s' & evs & ts & Hrun & Htr & _ & Hh & Hlen & _ & Hval & _).
  exists (all_matched found), found, times, s', evs, ts.
  split_and!; try assumption.
  - rewrite Hh. apply lookup_insert_eq.
  - intros ->. split; [reflexivity|].
    rewrite Hlen. apply validated_complete, Hval.
  - intros v dv ->. split; [reflexivity|].
    destruct (validated_found _ _ _ _ Hval) as (i & k & Hl & Hi & Hg & Hd).
    exists i, k. split_and!; try assumption. congruence.
  - intros i k v dv Hi Hg Hd.
    destruct (validated_stops _ _ _ Hval i k v k dv Hi Hg Hd) as [_ Hl].
    congruence.
Qed.

(** C10.  [validate_puts] returns with the list object it was given
    holding the same pairs as before, and so does every other list object
    that existed before the call. *)
Theorem validate_puts_keeps_input fuel kvs pairs (s : state) :
  heap s !! kvs = Some (pair_elem <$> pairs) ->
  length pairs < fuel ->
  exists result s',
    validate_puts fuel kvs s = Ret result s' /\
    heap s' !! kvs = Some (pair_elem <$> pairs) /\
    (forall r l, heap s !! r = Some l -> heap s' !! r = Some l).
Proof.
  intros Hk Hfuel.
  destruct (validate_puts_spec fuel kvs pairs s Hk Hfuel)
    as (found & times & s' & evs & ts & Hrun & _ & Ht0 & Hh & _).
  assert (Hframe : forall r l, heap s !! r = Some l -> heap s' !! r = Some l).
  { intros r l Hr. rewrite Hh, lookup_insert_ne; [exact Hr|].
    intros ->. congruence. }
  eexists _, s'. split_and!; [exact Hrun | apply Hframe, Hk | exact Hframe].
Qed.

(** C8, as the code has it.  Let the answer of a get (its success and its
    value) be decided by the contents of the store, whichever member is
    asked, and let connecting, reading the clock and getting leave these
    contents as they are.  Then [validate_puts], run twice in a row over
    the same list of accepted pairs, returns the same boolean and the same
    mismatch record both times; it issues no put, and the contents of the
    store are after each run what they were before. *)
Theorem validate_puts_twice {V} (view : World -> V) fuel kvs pairs (s : state) :
  (forall w, view (connect_to_host w).2 = view w) ->
  (forall w, view (time_time w).2 = view w) ->
  (forall c k w, view (get_request c k w).2 = view w) ->
  (forall c c' k w w', view w = view w' ->
     (get_request c k w).1.1.1 = (get_request c' k w').1.1.1 /\
     (get_request c k w).1.2 = (get_request c' k w').1.2) ->
  heap s !! kvs = Some (pair_elem <$> pairs) ->
  length pairs < fuel ->
  exists b mismatch times1 s1 evs1 b' mismatch' times2 s2 evs2,
    validate_puts fuel kvs s = Ret (b, mismatch, times1) s1 /\
    trace s1 = trace s ++ evs1 /\
    validate_puts fuel kvs s1 = Ret (b', mismatch', times2) s2 /\
    trace s2 = trace s1 ++ evs2 /\
    b = b' /\ mismatch = mismatch' /\
    puts evs1 = [] /\ puts evs2 = [] /\
    view (world s1) = view (world s) /\
    view (world s2) = view (world s).
Proof.
  intros Hconn Hclock Hget Hdet Hk Hfuel.
  set (c0 := (connect_to_host (world s)).1).
  set (I := fun w => view w = view (world s)).
  set (R := fun k (ok : bool) (dv : dbval) =>
              ok = (get_request c0 k (world s)).1.1.1 /\
              dv = (get_request c0 k (world s)).1.2).
  assert (HIR : reads_keep I R).
  { unfold reads_keep, I, R. split_and!.
    - intros w Hw. rewrite Hclock. exact Hw.
    - intros c k w Hw. rewrite Hget. exact Hw.
    - intros c k w Hw. apply Hdet, Hw. }
  assert (HIc : forall w, I w -> I (connect_to_host w).2).
  { unfold I. intros w Hw. rewrite Hconn. exact Hw. }
  assert (Hfun : forall k ok dv ok' dv',
             R k ok dv -> R k ok' dv' -> ok = ok' /\ dv = dv').
  { unfold R. intros k ok dv ok' dv' [-> ->] [-> ->]. auto. }
  destruct (validate_puts_spec fuel kvs pairs s Hk Hfuel)
    as (found & times1 & s1 & evs1 & ts1 & Hrun1 & Htr1 & Ht1 & Hh1 & _ & Hp1 & Hval1 & Hinv1).
  destruct (Hinv1 I R HIR HIc eq_refl) as [HI1 HR1].
  assert (Hk1 : heap s1 !! kvs = Some (pair_elem <$> pairs)).
  { rewrite Hh1, lookup_insert_ne; [exact Hk|]. intros ->. congruence. }
  destruct (validate_puts_spec fuel kvs pairs s1 Hk1 Hfuel)
    as (found' & times2 & s2 & evs2 & ts2 & Hrun2 & Htr2 & _ & _ & _ & Hp2 & Hval2 & Hinv2).
  assert (HIR' : reads_keep (fun w => view w = view (world s1)) R).
  { unfold reads_keep, R. split_and!.
    - intros w Hw. rewrite Hclock. exact Hw.
    - intros c k w Hw. rewrite Hget. exact Hw.
    - intros c k w Hw. apply Hdet. rewrite Hw. exact HI1. }
  destruct (Hinv2 _ R HIR') as [HI2 HR2]; [| reflexivity |].
  { intros w Hw. rewrite Hconn. exact Hw. }
  destruct (validated_same R _ _ _ Hfun Hval1 _ _ Hval2 HR1 HR2) as [_ <-].
  exists (all_matched found), found, times1, s1, evs1,
         (all_matched found), found, times2, s2, evs2.
  split_and!; try assumption; try reflexivity.
  cbn beta in HI2. rewrite HI2. exact HI1.
Qed.

End ValidatorClaims.

(** The runs of the validator against the small cluster. *)
Lemma overwritten_gets :
  gets (trace (final (validate_puts 4 0 Demo.overwritten) Demo.overwritten)) =
  [("k0", true, Some "v0"); ("k1", true, Some "v2")].
Proof. vm_compute. reflexivity. Qed.

Lemma partitioned_gets :
  gets (trace (final (validate_puts 4 0 Demo.partitioned) Demo.partitioned)) =
  [("k0", true, Some "v0"); ("k1", false, None); ("k2", true, Some "v2")].
Proof. vm_compute. reflexivity. Qed.

(** The pair [("k1", "v1")] read back as ["v2"]: the run reports it and
    issues two gets, none for [k2]. *)
Lemma validate_puts_stops_at_mismatch_overwritten :
  exists times s',
    validate_puts 4 0 Demo.overwritten =
      Ret (false, Some ("v1", Some "v2"), times) s' /\
    (gets (trace s')).*1.*1 = ["k0"; "k1"].
Proof.
  destruct (validate_puts_stops_at_mismatch 4 0 Demo.three Demo.overwritten)
    as (b & mismatch & times & s' & evs & ts & Hrun & Htr & Hh & Hstop);
    [reflexivity | simpl; lia |].
  change (trace Demo.overwritten ++ evs) with evs in Htr.
  assert (Hevs : gets evs !! 1 = Some ("k1", true, Some "v2")).
  { rewrite <- Htr.
    replace s' with (final (validate_puts 4 0 Demo.overwritten) Demo.overwritten)
      by (rewrite Hrun; reflexivity).
    rewrite overwritten_gets. reflexivity. }
  destruct (Hstop 1 "k1" "v1" (Some "v2") eq_refl Hevs) as (-> & -> & _ & Hkeys);
    [discriminate|].
  exists times, s'. split; [exact Hrun|].
  rewrite Htr. exact Hkeys.
Defined.

(** [k1] out of reach, the other two pairs as written: the run reports
    success after three gets. *)
Lemma validate_puts_all_matched_partitioned :
  exists times s',
    validate_puts 4 0 Demo.partitioned = Ret (true, None, times) s' /\
    length (gets (trace s')) = 3.
Proof.
  destruct (validate_puts_all_matched 4 0 Demo.three Demo.partitioned)
    as (b & mismatch & times & s' & evs & ts & Hrun & Htr & Hh & Hall);
    [reflexivity | simpl; lia |].
  change (trace Demo.partitioned ++ evs) with evs in Htr.
  assert (Hevs : gets evs = [("k0", true, Some "v0"); ("k1", false, None);
                             ("k2", true, Some "v2")]).
  { rewrite <- Htr.
    replace s' with (final (validate_puts 4 0 Demo.partitioned) Demo.partitioned)
      by (rewrite Hrun; reflexivity).
    exact partitioned_gets. }
  destruct Hall as (-> & -> & Hlen).
  { rewrite Hevs. clear. unfold Demo.three.
    intros [|[|[|i]]] k v k' ok dv Hi Hg; cbn in Hi, Hg;
      [ | | | discriminate Hi ];
      injection Hi as <- <-; injection Hg as <- <- <-; auto. }
  exists times, s'. split; [exact Hrun|].
  rewrite Htr. exact Hlen.
Defined.

(** The mismatch found by the second get: two latencies. *)
Lemma validate_puts_times_length_overwritten :
  exists b mismatch times s' ts,
    validate_puts 4 0 Demo.overwritten = Ret (b, mismatch, times) s' /\
    heap s' !! times = Some (Float <$> ts) /\
    length ts = 2.
Proof.
  destruct (validate_puts_times_length 4 0 Demo.three Demo.overwritten)
    as (b & mismatch & times & s' & evs & ts & Hrun & Htr & Hh & _ & _ & _ & Hat);
    [reflexivity | simpl; lia |].
  change (trace Demo.overwritten ++ evs) with evs in Htr.
  assert (Hevs : gets evs !! 1 = Some ("k1", true, Some "v2")).
  { rewrite <- Htr.
    replace s' with (final (validate_puts 4 0 Demo.overwritten) Demo.overwritten)
      by (rewrite Hrun; reflexivity).
    rewrite overwritten_gets. reflexivity. }
  exists b, mismatch, times, s', ts. split_and!; [exact Hrun | exact Hh |].
  apply (Hat 1 "k1" "v1" (Some "v2") eq_refl Hevs). discriminate.
Defined.

(** The three pairs are in the list object [0] after the run as before. *)
Lemma validate_puts_keeps_input_intact :
  exists result s',
    validate_puts 4 0 Demo.intact = Ret result s' /\
    heap s' !! 0 = Some (pair_elem <$> Demo.three) /\
    (forall r l, heap Demo.intact !! r = Some l -> heap s' !! r = Some l).
Proof.
  apply (validate_puts_keeps_input 4 0 Demo.three Demo.intact);
    [reflexivity | simpl; lia].
Defined.

(** In the small cluster, the gets are decided by its contents and leave
    them alone. *)
Lemma demo_get_keeps c k w : Demo.contents (Demo.get c k w).2 = Demo.contents w.
Proof.
  unfold Demo.get. destruct (Demo.unreachable k w); [reflexivity|].
  destruct (Demo.stored k (Demo.kv w)); reflexivity.
Qed.

Lemma demo_get_decided c c' k w w' :
  Demo.contents w = Demo.contents w' ->
  (Demo.get c k w).1.1.1 = (Demo.get c' k w').1.1.1 /\
  (Demo.get c k w).1.2 = (Demo.get c' k w').1.2.
Proof.
  unfold Demo.contents, Demo.get, Demo.unreachable. intros [= -> ->].
  destruct (existsb (String.eqb k) (Demo.down w')); [auto|].
  destruct (Demo.stored k (Demo.kv w')); auto.
Qed.

(** C8, as the specification words it, fails: with the store left alone
    and a get lost in the first run only, the first run skips the pair and
    returns [True], the second reads the other value and returns
    [False]. *)
Lemma validate_puts_twice_differs :
  match validate_puts 2 0 Flaky.changed with
  | Ret (b, mismatch, _) s1 =>
      match validate_puts 2 0 s1 with
      | Ret (b', mismatch', _) s2 =>
          b = true /\ mismatch = None /\
          b' = false /\ mismatch' = Some ("v", Some "w") /\
          Flaky.kv (world s1) = Flaky.kv (world Flaky.changed) /\
          Flaky.kv (world s2) = Flaky.kv (world Flaky.changed) /\
          puts (trace s2) = []
      | _ => False
      end
  | _ => False
  end.
Proof. vm_compute. split_and!; reflexivity. Qed.

(** Two readings of the overwritten store: the mismatch both times. *)
Lemma validate_puts_twice_overwritten :
  exists b mismatch times1 s1 evs1 b' mismatch' times2 s2 evs2,
    validate_puts 4 0 Demo.overwritten = Ret (b, mismatch, times1) s1 /\
    trace s1 = trace Demo.overwritten ++ evs1 /\
    validate_puts 4 0 s1 = Ret (b', mismatch', times2) s2 /\
    trace s2 = trace s1 ++ evs2 /\
    b = b' /\ mismatch = mismatch' /\
    puts evs1 = [] /\ puts evs2 = [] /\
    Demo.contents (world s1) = Demo.contents (world Demo.overwritten) /\
    Demo.contents (world s2) = Demo.contents (world Demo.overwritten).
Proof.
  apply (validate_puts_twice (E := Demo.env) Demo.contents 4 0 Demo.three Demo.overwritten).
  - intros w. reflexivity.
  - intros w. reflexivity.
  - exact demo_get_keeps.
  - exact demo_get_decided.
  - reflexivity.
  - simpl. lia.
Defined.

Section LatencyClaims.

Context {E : Env}.

(** C5, as the code has it.  On a list of samples that is not empty,
    [validate_time] returns the percentile in milliseconds together with a
    boolean that is true exactly when the comparison [pct95 >= threshold]
    fails: for numbers, exactly when the percentile is below the
    threshold (false when it meets or exceeds it). *)
Theorem validate_time_below times threshold samples (s : state) :
  samples <> [] ->
  heap s !! times = Some (Float <$> samples) ->
  exists p b s',
    Np.percentile samples 0.95 = Some p /\
    validate_time times threshold s = Ret (b, (p * 1000)%float) s' /\
    (b = true <-> (threshold <=? p * 1000)%float = false) /\
    (Np.is_nan threshold = false -> Np.is_nan (p * 1000) = false ->
     (b = true <-> (p * 1000 <? threshold)%float = true)).
Proof.
  intros Hne Hh.
  destruct (NpFacts.percentile_some samples 0.95 Hne) as [p Hp].
  exists p. eexists _, _. split; [exact Hp|].
  split; [apply (validate_time_spec _ _ _ _ _ Hh Hp)|].
  assert (Hb : negb (threshold <=? p * 1000)%float = true <->
               (threshold <=? p * 1000)%float = false).
  { destruct (threshold <=? p * 1000)%float; cbn; split; congruence. }
  split; [exact Hb|].
  intros Ht Hp'. rewrite Hb. apply NpFacts.leb_false_ltb; assumption.
Qed.


(** C7.  On the latencies 1 ms, 2 ms, ..., 100 ms and the threshold
    1000 ms, [validate_time] returns [True] and the percentile 1.9405 ms,
    which is at most 1000 ms. *)
Theorem validate_time_hundred times (s : state) :
  heap s !! times = Some (Float <$> Demo.hundred_ms) ->
  exists s',
    validate_time times 1000 s = Ret (true, 1.9405%float) s' /\
    float_le 1.9405 1000.
Proof.
  intros Hh.
  destruct (Np.percentile Demo.hundred_ms 0.95) as [p|] eqn:Hp;
    [|vm_compute in Hp; discriminate Hp].
  assert (Hv : (p * 1000)%float = 1.9405%float).
  { clear -Hp. vm_compute in Hp. injection Hp as <-. vm_compute. reflexivity. }
  eexists. split; [|vm_compute; reflexivity].
  rewrite (validate_time_spec _ _ _ _ _ Hh Hp), Hv. reflexivity.
Qed.

End LatencyClaims.

(** C5, as the specification words it, fails: with the single sample 1 ms
    and the threshold 10 ms the boolean is true although the percentile,
    1 ms, neither meets nor exceeds the threshold. *)
Lemma validate_time_true_below_threshold :
  match validate_time 0 10 (Demo.sampled [0.001%float]) with
  | Ret (b, pct95) _ => b = true /\ (10 <=? pct95)%float = false
  | _ => False
  end.
Proof. vm_compute. split; reflexivity. Qed.

(** The samples 0 s and 6 s against 57 ms: the percentile is computed as
    56.99999999999999 ms, below the threshold. *)
Lemma validate_time_below_57 :
  exists p b s',
    Np.percentile [0%float; 6%float] 0.95 = Some p /\
    validate_time 0 57 (Demo.sampled [0%float; 6%float]) =
      Ret (b, (p * 1000)%float) s' /\
    (b = true <-> (57 <=? p * 1000)%float = false) /\
    (Np.is_nan 57 = false -> Np.is_nan (p * 1000) = false ->
     (b = true <-> (p * 1000 <? 57)%float = true)).
Proof.
  apply (validate_time_below 0 57 [0%float; 6%float]);
    [discriminate | reflexivity].
Defined.

Example validate_time_57_run :
  match validate_time 0 57 (Demo.sampled [0%float; 6%float]) with
  | Ret r _ => r = (true, 56.99999999999999%float)
  | _ => False
  end.
Proof. vm_compute. reflexivity. Qed.



(** On 3 ms, 1 ms and 2 ms the percentile is computed as 1.019 ms, between
    the smallest sample and the second smallest. *)
Example validate_time_three_run :
  match validate_time 0 10
          (Demo.sampled [0.003%float; 0.001%float; 0.002%float]) with
  | Ret r _ => r = (true, 1.019%float)
  | _ => False
  end.
Proof. vm_compute. reflexivity. Qed.

Lemma validate_time_hundred_sampled :
  exists s',
    validate_time 0 1000 (Demo.sampled Demo.hundred_ms) = Ret (true, 1.9405%float) s' /\
    float_le 1.9405 1000.
Proof.
  apply (validate_time_hundred 0 (Demo.sampled Demo.hundred_ms)). reflexivity.
Defined.

(** On these hundred latencies the percentile at [95] is 95.05 ms; the one
    at [0.95], which the script computes, is 1.9405 ms. *)
Example hundred_ms_percentiles :
  (fun p => p * 1000)%float <$> Np.percentile Demo.hundred_ms 95 = Some 95.05%float /\
  (fun p => p * 1000)%float <$> Np.percentile Demo.hundred_ms 0.95 = Some 1.9405%float.
Proof. split; vm_compute; reflexivity. Qed.

(** * Further properties of the script *)

(** ** The calls of a run, round by round *)

Section Rounds.

Context {E : Env}.

Lemma put_loop_rounds n : forall client kvs times s lk lt,
  kvs <> times -> heap s !! kvs = Some lk -> heap s !! times = Some lt ->
  exists s' rounds,
    put_loop n client kvs times s = Ret tt s' /\
    length rounds = n /\
    trace s' = trace s ++ concat (put_block <$> rounds) /\
    heap s' !! times = Some (lt ++ (put_latency <$> rounds)).
Proof.
  induction n as [|n IH]; intros client kvs times s lk lt Hne Hk Ht.
  - exists s, []. cbn. rewrite !app_nil_r. auto.
  - cbn [put_loop].
    step_call key w1. step_call value w2. step_call stime w3.
    step_call r w4. destruct r as [success error].
    step_call etime w5.
    rewrite (bind_append _ _ lt) by exact Ht.
    rewrite bind_emit. cbn [world heap trace].
    set (round := {| p_key := key; p_value := value; p_stime := stime;
                     p_success := success; p_etime := etime |}).
    destruct success.
    + rewrite bind_bind, (bind_append _ _ lk), bind_emit
        by (cbn; rewrite lookup_insert_ne by congruence; exact Hk).
      cbn [world heap trace].
      edestruct (IH client kvs times) as (s' & rounds & Hrun & Hlen & Htr & Ht');
        [exact Hne | | | rewrite Hrun].
      * cbn. apply lookup_insert_eq.
      * cbn. rewrite lookup_insert_ne by congruence. apply lookup_insert_eq.
      * cbn in Htr, Ht'. exists s', (round :: rounds).
        split; [reflexivity|]. split; [simpl; lia|].
        rewrite Htr, Ht', <- !app_assoc. split; reflexivity.
    + rewrite bind_emit. cbn [world heap trace].
      edestruct (IH client kvs times) as (s' & rounds & Hrun & Hlen & Htr & Ht');
        [exact Hne | | | rewrite Hrun].
      * cbn. rewrite lookup_insert_ne by congruence. exact Hk.
      * cbn. apply lookup_insert_eq.
      * cbn in Htr, Ht'. exists s', (round :: rounds).
        split; [reflexivity|]. split; [simpl; lia|].
        rewrite Htr, Ht', <- !app_assoc. split; reflexivity.
Qed.

Lemma get_loop_rounds client kvs times pairs fuel : forall i s lt,
  kvs <> times ->
  heap s !! kvs = Some (pair_elem <$> pairs) ->
  heap s !! times = Some lt ->
  length pairs - i < fuel ->
  exists found s' rounds,
    get_loop fuel client kvs times i s = Ret found s' /\
    trace s' = trace s ++ concat (get_block <$> rounds) /\
    heap s' !! times = Some (lt ++ (get_latency <$> rounds)) /\
    (fun r => (g_key r, g_value r)) <$> rounds = take (length rounds) (drop i pairs).
Proof.
  induction fuel as [|fuel IH]; intros i s lt Hne Hk Ht Hfuel; [lia|].
  cbn [get_loop]. rewrite (bind_next_item _ _ _ _ _ Hk).
  rewrite list_lookup_fmap.
  destruct (pairs !! i) as [[k v]|] eqn:Hi;
    cbn [fmap option_fmap option_map pair_elem fst snd].
  - rewrite (drop_S _ _ _ Hi).
    pose proof (lookup_lt_Some _ _ _ Hi) as Hlt.
    unfold pair_elem. cbn [subscripts fst snd]. rewrite bind_ret.
    step_call stime w1. step_call r w2. destruct r as [[success error] dv].
    step_call etime w3.
    rewrite (bind_append _ _ lt) by exact Ht.
    rewrite bind_emit. cbn [world heap trace fst snd].
    set (round := {| g_key := k; g_value := v; g_stime := stime;
                     g_success := success; g_found := dv; g_etime := etime |}).
    assert (Hstep : forall s1,
               heap s1 = <[times := lt ++ [get_latency round]]> (heap s) ->
               trace s1 = trace s ++ get_block round ->
               exists found s' rounds,
                 get_loop fuel client kvs times (S i) s1 = Ret found s' /\
                 trace s' = trace s ++ concat (get_block <$> rounds) /\
                 heap s' !! times = Some (lt ++ (get_latency <$> rounds)) /\
                 (fun r => (g_key r, g_value r)) <$> rounds =
                   take (length rounds) ((k, v) :: drop (S i) pairs)).
    { intros s1 Hh1 Ht1.
      destruct (IH (S i) s1 (lt ++ [get_latency round]))
        as (found & s' & rounds & Hrun & Htr & Ht' & Hkeys);
        [ exact Hne
        | rewrite Hh1, lookup_insert_ne by congruence; exact Hk
        | rewrite Hh1; apply lookup_insert_eq
        | lia | ].
      exists found, s', (round :: rounds). split; [exact Hrun|].
      rewrite Htr, Ht1, Ht', <- !app_assoc. cbn. rewrite Hkeys.
      split_and!; reflexivity. }
    destruct success; cbn [negb].
    + case_bool_decide as Hdv.
      * rewrite bind_emit. cbn [world heap trace].
        eexists (Some (v, dv)), _, [round]. split; [reflexivity|].
        cbn [world heap trace]. unfold get_block, get_latency. subst round.
        cbn. rewrite bool_decide_true by exact Hdv.
        cbn. rewrite take_0, <- !app_assoc. split_and!; try reflexivity.
        apply lookup_insert_eq.
      * apply Hstep; [reflexivity|].
        cbn [trace]. unfold get_block. subst round.
        cbn. rewrite bool_decide_false by (intros Hn; apply Hn, Hdv).
        cbn. rewrite <- !app_assoc. reflexivity.
    + rewrite bind_emit. cbn [world heap trace].
      apply Hstep; [reflexivity|].
      cbn [trace]. unfold get_block. cbn. rewrite <- !app_assoc. reflexivity.
  - exists None, s, []. cbn. rewrite !app_nil_r. split_and!; try reflexivity.
    exact Ht.
Qed.

End Rounds.

(** What the projections of a trace make of the rounds. *)

Lemma puts_put_blocks rounds :
  puts (concat (put_block <$> rounds)) =
  (fun r => (p_key r, p_value r, p_success r)) <$> rounds.
Proof.
  induction rounds as [|r rounds IH]; [reflexivity|].
  cbn [fmap list_fmap concat]. rewrite puts_app, IH. reflexivity.
Qed.

Lemma gets_put_blocks rounds : gets (concat (put_block <$> rounds)) = [].
Proof.
  induction rounds as [|r rounds IH]; [reflexivity|].
  cbn [fmap list_fmap concat]. rewrite gets_app, IH. reflexivity.
Qed.

Lemma sometimes_put_blocks rounds :
  sometimes_of (concat (put_block <$> rounds)) =
  (fun r => (p_success r, put_name)) <$> rounds.
Proof.
  induction rounds as [|r rounds IH]; [reflexivity|].
  cbn [fmap list_fmap concat]. unfold sometimes_of in *.
  rewrite omap_app, IH. reflexivity.
Qed.

Lemma always_put_blocks rounds : always_of (concat (put_block <$> rounds)) = [].
Proof.
  induction rounds as [|r rounds IH]; [reflexivity|].
  cbn [fmap list_fmap concat]. unfold always_of in *.
  rewrite omap_app, IH. reflexivity.
Qed.

Lemma connects_put_blocks rounds : connects (concat (put_block <$> rounds)) = 0.
Proof.
  induction rounds as [|r rounds IH]; [reflexivity|].
  cbn [fmap list_fmap concat]. unfold connects in *.
  rewrite omap_app, length_app, IH. reflexivity.
Qed.

Lemma clocks_put_blocks rounds :
  Float <$> elapsed (clocks (concat (put_block <$> rounds))) = put_latency <$> rounds.
Proof.
  induction rounds as [|r rounds IH]; [reflexivity|].
  cbn [fmap list_fmap concat]. unfold clocks in *.
  rewrite omap_app. cbn. f_equal. exact IH.
Qed.

Lemma strings_put_blocks rounds :
  pairs_up (strings (concat (put_block <$> rounds))) =
  (fun r => (p_key r, p_value r)) <$> rounds.
Proof.
  induction rounds as [|r rounds IH]; [reflexivity|].
  cbn [fmap list_fmap concat]. unfold strings in *.
  rewrite omap_app. cbn. f_equal. exact IH.
Qed.

Lemma gets_get_blocks rounds :
  gets (concat (get_block <$> rounds)) =
  (fun r => (g_key r, g_success r, g_found r)) <$> rounds.
Proof.
  induction rounds as [|r rounds IH]; [reflexivity|].
  cbn [fmap list_fmap concat]. rewrite gets_app, IH.
  unfold get_block. rewrite gets_app.
  destruct (negb (g_success r)); [reflexivity|].
  destruct (bool_decide _); reflexivity.
Qed.

Lemma sometimes_get_blocks rounds :
  sometimes_of (concat (get_block <$> rounds)) =
  (fun r => (g_success r, get_name)) <$> rounds.
Proof.
  induction rounds as [|r rounds IH]; [reflexivity|].
  cbn [fmap list_fmap concat]. unfold sometimes_of in *.
  rewrite omap_app, IH. unfold get_block. rewrite omap_app.
  destruct (negb (g_success r)); [reflexivity|].
  destruct (bool_decide _); reflexivity.
Qed.


Lemma clocks_get_blocks rounds :
  Float <$> elapsed (clocks (concat (get_block <$> rounds))) = get_latency <$> rounds.
Proof.
  induction rounds as [|r rounds IH]; [reflexivity|].
  cbn [fmap list_fmap concat]. unfold clocks in *.
  rewrite omap_app. unfold get_block at 1. rewrite omap_app.
  replace (omap _ (if negb (g_success r) then _ else _)) with (@nil float).
  - cbn. f_equal. exact IH.
  - destruct (negb (g_success r)); [reflexivity|].
    destruct (bool_decide _); reflexivity.
Qed.

Section WholeRuns.

Context {E : Env}.

(** A run of [simulate_traffic], call by call. *)
Lemma simulate_traffic_rounds (s : state) :
  exists kvs times s' rounds,
    simulate_traffic s = Ret (kvs, times) s' /\
    length rounds = Z.to_nat (request_count s) /\
    trace s' = trace s ++ [Connect; GenRequests (request_count s)] ++
               concat (put_block <$> rounds) ++ [Print TrafficSimulated] /\
    heap s' !! times = Some (put_latency <$> rounds).
Proof.
  unfold simulate_traffic, request_count.
  step_call client w1. step_call num_requests w2.
  rewrite !bind_new_list. cbn [world heap trace].
  set (kvs := fresh (dom (heap s))).
  set (h1 := <[kvs := []]> (heap s)).
  set (times := fresh (dom h1)).
  assert (Hne : kvs <> times).
  { apply (fresh_loc_ne h1 kvs []). apply lookup_insert_eq. }
  edestruct (put_loop_rounds (Z.to_nat num_requests) client kvs times)
    as (s' & rounds & Hrun & Hlen & Htr & Ht');
    [exact Hne | | | rewrite (bind_Ret _ _ _ _ _ Hrun)].
  - cbn. rewrite lookup_insert_ne by congruence. apply lookup_insert_eq.
  - cbn. apply lookup_insert_eq.
  - rewrite bind_emit. cbn in *.
    eexists kvs, times, _, rounds. split; [reflexivity|].
    rewrite Hcall0. cbn. rewrite Htr, <- !app_assoc. auto.
Qed.

(** A run of [validate_puts], call by call. *)
Lemma validate_puts_rounds fuel kvs pairs (s : state) :
  heap s !! kvs = Some (pair_elem <$> pairs) ->
  length pairs < fuel ->
  exists found times s' rounds,
    validate_puts fuel kvs s = Ret (all_matched found, found, times) s' /\
    trace s' = trace s ++ [Connect] ++ concat (get_block <$> rounds) ++
               (if all_matched found then [Print ValidationOk] else []) /\
    heap s' !! times = Some (get_latency <$> rounds) /\
    (fun r => (g_key r, g_value r)) <$> rounds = take (length rounds) pairs.
Proof.
  intros Hk Hfuel. unfold validate_puts.
  rewrite bind_new_list. cbn [world heap trace].
  set (times := fresh (dom (heap s))).
  assert (Hne : kvs <> times) by (apply (fresh_loc_ne _ _ _ Hk)).
  step_call client w1.
  match goal with |- context [bind (get_loop _ _ _ _ _) _ ?s1] =>
    destruct (get_loop_rounds client kvs times pairs fuel 0 s1 [])
      as (found & s' & rounds & Hrun & Htr & Ht' & Hkeys);
    [ exact Hne
    | cbn; rewrite lookup_insert_ne by congruence; exact Hk
    | cbn; apply lookup_insert_eq
    | lia
    | rewrite (bind_Ret _ _ _ _ _ Hrun) ]
  end.
  cbn [world heap trace drop app] in *.
  destruct found as [mismatch|]; cbn [all_matched].
  - exists (Some mismatch), times, s', rounds.
    split_and!; try assumption; try reflexivity.
    rewrite Htr, app_nil_r, <- !app_assoc. reflexivity.
  - rewrite bind_emit. cbn.
    eexists None, times, _, rounds. split; [reflexivity|].
    cbn [world heap trace].
    split_and!; try assumption.
    rewrite Htr, <- !app_assoc. reflexivity.
Qed.

End WholeRuns.

Lemma clocks_length_put_blocks rounds :
  length (clocks (concat (put_block <$> rounds))) = 2 * length rounds.
Proof.
  induction rounds as [|r rounds IH]; [reflexivity|].
  cbn [fmap list_fmap concat]. unfold clocks in *.
  rewrite omap_app, length_app, IH. cbn. lia.
Qed.

Lemma clocks_length_get_blocks rounds :
  length (clocks (concat (get_block <$> rounds))) = 2 * length rounds.
Proof.
  induction rounds as [|r rounds IH]; [reflexivity|].
  cbn [fmap list_fmap concat]. unfold clocks in *.
  rewrite omap_app, length_app, IH. unfold get_block. rewrite omap_app.
  replace (omap _ (if negb (g_success r) then _ else _)) with (@nil float).
  - cbn. lia.
  - destruct (negb (g_success r)); [reflexivity|].
    destruct (bool_decide _); reflexivity.
Qed.

Lemma strings_length_put_blocks rounds :
  length (strings (concat (put_block <$> rounds))) = 2 * length rounds.
Proof.
  induction rounds as [|r rounds IH]; [reflexivity|].
  cbn [fmap list_fmap concat]. unfold strings in *.
  rewrite omap_app, length_app, IH. cbn. lia.
Qed.

(** ** The traffic generator, call by call *)

Section TrafficExtras.

Context {E : Env}.

(** X1.  [simulate_traffic] records one [sometimes] assertion per put, in
    the order of the puts, under the name "Client can make successful put
    requests" and with that put's success as its condition; it records no
    [always] assertion. *)
Theorem simulate_traffic_reports_each_put (s : state) :
  exists kvs times s' evs,
    simulate_traffic s = Ret (kvs, times) s' /\
    trace s' = trace s ++ evs /\
    sometimes_of evs = (fun p => (p.2, put_name)) <$> puts evs /\
    always_of evs = [].
Proof.
  destruct (simulate_traffic_rounds s)
    as (kvs & times & s' & rounds & Hrun & _ & Htr & _).
  eexists kvs, times, s', _. split; [exact Hrun|]. split; [exact Htr|].
  unfold sometimes_of, always_of.
  rewrite !puts_app, !omap_app.
  fold (sometimes_of (concat (put_block <$> rounds))).
  fold (always_of (concat (put_block <$> rounds))).
  rewrite puts_put_blocks, sometimes_put_blocks, always_put_blocks.
  cbn. rewrite !app_nil_r, <- list_fmap_compose. split; reflexivity.
Qed.

(** X2.  [simulate_traffic] reads the clock right before and right after
    each put, with no other call in between, and the latency it records
    for that put is the second of these two readings minus the first: the
    run is, call by call, connect, ask for the count, then for each put
    the block [put_block] (two strings drawn, clock, put, clock,
    [sometimes], print), then the last print; the returned list holds
    [p_etime - p_stime] of each block, in order. *)
Theorem simulate_traffic_latencies (s : state) :
  exists kvs times s' evs rounds,
    simulate_traffic s = Ret (kvs, times) s' /\
    trace s' = trace s ++ evs /\
    evs = [Connect; GenRequests (request_count s)] ++
          concat (put_block <$> rounds) ++ [Print TrafficSimulated] /\
    heap s' !! times = Some (put_latency <$> rounds) /\
    length (clocks evs) = 2 * length (puts evs) /\
    heap s' !! times = Some (Float <$> elapsed (clocks evs)).
Proof.
  destruct (simulate_traffic_rounds s)
    as (kvs & times & s' & rounds & Hrun & _ & Htr & Ht).
  eexists kvs, times, s', _, rounds.
  split; [exact Hrun|]. split; [exact Htr|]. split; [reflexivity|].
  split; [exact Ht|].
  unfold clocks. rewrite !puts_app, !omap_app.
  fold (clocks (concat (put_block <$> rounds))).
  rewrite puts_put_blocks. cbn. rewrite !app_nil_r, length_fmap.
  split; [apply clocks_length_put_blocks|].
  rewrite clocks_put_blocks. exact Ht.
Qed.

(** X3.  [simulate_traffic] draws two random strings per put and puts
    them as they come: the first as the key, the second as the value. *)
Theorem simulate_traffic_draws (s : state) :
  exists kvs times s' evs,
    simulate_traffic s = Ret (kvs, times) s' /\
    trace s' = trace s ++ evs /\
    length (strings evs) = 2 * length (puts evs) /\
    (puts evs).*1 = pairs_up (strings evs).
Proof.
  destruct (simulate_traffic_rounds s)
    as (kvs & times & s' & rounds & Hrun & _ & Htr & _).
  eexists kvs, times, s', _. split; [exact Hrun|]. split; [exact Htr|].
  unfold strings. rewrite !puts_app, !omap_app.
  fold (strings (concat (put_block <$> rounds))).
  rewrite puts_put_blocks. cbn. rewrite !app_nil_r, length_fmap.
  split; [apply strings_length_put_blocks|].
  rewrite strings_put_blocks, <- list_fmap_compose. reflexivity.
Qed.

(** X4.  [simulate_traffic] asks for a member of the cluster once, and
    never issues a get. *)
Theorem simulate_traffic_only_puts (s : state) :
  exists kvs times s' evs,
    simulate_traffic s = Ret (kvs, times) s' /\
    trace s' = trace s ++ evs /\
    connects evs = 1 /\
    gets evs = [].
Proof.
  destruct (simulate_traffic_rounds s)
    as (kvs & times & s' & rounds & Hrun & _ & Htr & _).
  eexists kvs, times, s', _. split; [exact Hrun|]. split; [exact Htr|].
  unfold connects. rewrite !gets_app, !omap_app, !length_app.
  fold (connects (concat (put_block <$> rounds))).
  rewrite gets_put_blocks, connects_put_blocks. split; reflexivity.
Qed.

(** X5.  The two lists [simulate_traffic] returns are two new, distinct
    list objects; every list object that existed before the call holds
    after it what it held before. *)
Theorem simulate_traffic_fresh_lists (s : state) :
  exists kvs times s',
    simulate_traffic s = Ret (kvs, times) s' /\
    kvs <> times /\
    heap s !! kvs = None /\ heap s !! times = None /\
    is_Some (heap s' !! kvs) /\ is_Some (heap s' !! times) /\
    (forall r l, heap s !! r = Some l -> heap s' !! r = Some l).
Proof.
  destruct (simulate_traffic_spec s)
    as (kvs & times & s' & evs & ts & Hrun & _ & Hne & Hk0 & Ht0 & Hk & Ht & Hfr & _).
  exists kvs, times, s'. split_and!; try assumption; try (eexists; eassumption).
  intros r l Hr. rewrite Hfr; [exact Hr | |]; intros ->; congruence.
Qed.

(** X6.  When the request-count generator answers zero or less,
    [simulate_traffic] issues no put and returns two empty lists: its only
    calls are to connect, to ask for the count, and to print its last
    line. *)
Theorem simulate_traffic_no_requests (s : state) :
  (request_count s <= 0)%Z ->
  exists kvs times s',
    simulate_traffic s = Ret (kvs, times) s' /\
    trace s' = trace s ++ [Connect; GenRequests (request_count s);
                           Print TrafficSimulated] /\
    heap s' !! kvs = Some [] /\
    heap s' !! times = Some [].
Proof.
  intros Hn.
  destruct (simulate_traffic_rounds s)
    as (kvs & times & s' & rounds & Hrun & Hlen & Htr & Ht).
  destruct (simulate_traffic_spec s)
    as (kvs' & times' & s'' & evs & ts & Hrun' & Htr' & _ & _ & _ & Hk & _).
  rewrite Hrun in Hrun'. injection Hrun' as <- <- <-.
  replace (Z.to_nat (request_count s)) with 0 in Hlen by lia.
  destruct rounds; [|discriminate Hlen].
  exists kvs, times, s'. cbn in Htr, Ht.
  split_and!; try assumption.
  rewrite Htr in Htr'. apply app_inv_head in Htr'. subst evs. exact Hk.
Qed.

End TrafficExtras.

(** The generator answering [-3]: no put, two empty lists. *)
Lemma simulate_traffic_no_requests_below_zero :
  exists kvs times s',
    simulate_traffic no_requests = Ret (kvs, times) s' /\
    trace s' = trace no_requests ++ [Connect; GenRequests (request_count no_requests);
                                     Print TrafficSimulated] /\
    heap s' !! kvs = Some [] /\
    heap s' !! times = Some [].
Proof.
  apply (simulate_traffic_no_requests no_requests). vm_compute. discriminate.
Defined.

(** ** The validator, call by call *)

(** A reading that finds no mismatch has issued, for each pair, a get for
    its key that failed or returned its value. *)
Lemma validated_none_at kvs gs :
  validated kvs gs None ->
  forall i k v, kvs !! i = Some (k, v) ->
    exists ok dv, gs !! i = Some (k, ok, dv) /\ (ok = false \/ dv = Some v).
Proof.
  intros H. remember None as found eqn:Hf.
  induction H as [|k0 v0 dv0 kvs gs found H IH|k0 v0 kvs gs found H IH|k0 v0 dv0 kvs Hne];
    intros i k v Hi; try discriminate.
  - destruct i as [|i].
    + injection Hi as -> ->. exists false, dv0. auto.
    + apply (IH Hf i k v Hi).
  - destruct i as [|i].
    + injection Hi as -> ->. exists true, (Some v). auto.
    + apply (IH Hf i k v Hi).
Qed.

Section ValidatorExtras.

Context {E : Env}.


(** X8.  [validate_puts] records one [sometimes] assertion per get, in the
    order of the gets, under the name "Client can make successful get
    requests" and with that get's success as its condition. *)
Theorem validate_puts_reports_each_get fuel kvs pairs (s : state) :
  heap s !! kvs = Some (pair_elem <$> pairs) ->
  length pairs < fuel ->
  exists result s' evs,
    validate_puts fuel kvs s = Ret result s' /\
    trace s' = trace s ++ evs /\
    sometimes_of evs = (fun g => (g.1.2, get_name)) <$> gets evs.
Proof.
  intros Hk Hfuel.
  destruct (validate_puts_rounds fuel kvs pairs s Hk Hfuel)
    as (found & times & s' & rounds & Hrun & Htr & _ & _).
  eexists _, s', _. split; [exact Hrun|]. split; [exact Htr|].
  unfold sometimes_of. rewrite !gets_app, !omap_app.
  fold (sometimes_of (concat (get_block <$> rounds))).
  rewrite gets_get_blocks, sometimes_get_blocks.
  destruct (all_matched found); cbn;
    rewrite !app_nil_r, <- list_fmap_compose; reflexivity.
Qed.

(** X9.  [validate_puts] reads the clock right before and right after
    each get, with no other call in between, and the latency it records
    for that get is the second of these two readings minus the first: the
    run is, call by call, connect, then for each get the block
    [get_block] (clock, get, clock, [sometimes], and the line printed for
    a failed or mismatching get), then the line of a validation that went
    well; the returned list holds [g_etime - g_stime] of each block, in
    order. *)
Theorem validate_puts_latencies fuel kvs pairs (s : state) :
  heap s !! kvs = Some (pair_elem <$> pairs) ->
  length pairs < fuel ->
  exists b mismatch times s' evs rounds,
    validate_puts fuel kvs s = Ret (b, mismatch, times) s' /\
    trace s' = trace s ++ evs /\
    evs = [Connect] ++ concat (get_block <$> rounds) ++
          (if b then [Print ValidationOk] else []) /\
    heap s' !! times = Some (get_latency <$> rounds) /\
    length (clocks evs) = 2 * length (gets evs) /\
    heap s' !! times = Some (Float <$> elapsed (clocks evs)).
Proof.
  intros Hk Hfuel.
  destruct (validate_puts_rounds fuel kvs pairs s Hk Hfuel)
    as (found & times & s' & rounds & Hrun & Htr & Ht & _).
  eexists _, _, times, s', _, rounds.
  split; [exact Hrun|]. split; [exact Htr|]. split; [reflexivity|].
  split; [exact Ht|].
  unfold clocks. rewrite !gets_app, !omap_app.
  fold (clocks (concat (get_block <$> rounds))).
  replace (omap _ (if all_matched found then [Print ValidationOk] else []))
    with (@nil float) by (destruct (all_matched found); reflexivity).
  replace (gets (if all_matched found then [Print ValidationOk] else []))
    with (@nil (string * bool * dbval)) by (destruct (all_matched found); reflexivity).
  rewrite gets_get_blocks. cbn. rewrite !app_nil_r, length_fmap.
  split; [apply clocks_length_get_blocks|].
  rewrite clocks_get_blocks. exact Ht.
Qed.

(** X11.  On an empty list of accepted pairs [validate_puts] still asks
    for a member of the cluster, issues no get, and returns
    [(True, None, [])]: the list of latencies it returns is empty. *)
Theorem validate_puts_nothing_to_read fuel kvs (s : state) :
  heap s !! kvs = Some [] ->
  0 < fuel ->
  exists times s',
    validate_puts fuel kvs s = Ret (true, None, times) s' /\
    trace s' = trace s ++ [Connect; Print ValidationOk] /\
    heap s' !! times = Some [].
Proof.
  intros Hk Hfuel.
  destruct (validate_puts_rounds fuel kvs [] s Hk Hfuel)
    as (found & times & s' & rounds & Hrun & Htr & Ht & Hkeys).
  rewrite take_nil in Hkeys. apply fmap_nil_inv in Hkeys. subst rounds.
  destruct (validate_puts_spec fuel kvs [] s Hk Hfuel)
    as (found' & times' & s'' & evs & ts & Hrun' & _ & _ & _ & _ & _ & Hval & _).
  rewrite Hrun in Hrun'.
  assert (found' = None) as -> by (inversion Hval; reflexivity).
  destruct found as [m|]; [discriminate Hrun'|].
  exists times, s'. cbn in Htr, Ht. auto.
Qed.

End ValidatorExtras.


Lemma validate_puts_reports_each_get_partitioned :
  exists result s' evs,
    validate_puts 4 0 Demo.partitioned = Ret result s' /\
    trace s' = trace Demo.partitioned ++ evs /\
    sometimes_of evs = (fun g => (g.1.2, get_name)) <$> gets evs.
Proof.
  apply (validate_puts_reports_each_get 4 0 Demo.three Demo.partitioned);
    [reflexivity | simpl; lia].
Defined.

Lemma validate_puts_latencies_overwritten :
  exists b mismatch times s' evs rounds,
    validate_puts 4 0 Demo.overwritten = Ret (b, mismatch, times) s' /\
    trace s' = trace Demo.overwritten ++ evs /\
    evs = [Connect] ++ concat (get_block <$> rounds) ++
          (if b then [Print ValidationOk] else []) /\
    heap s' !! times = Some (get_latency <$> rounds) /\
    length (clocks evs) = 2 * length (gets evs) /\
    heap s' !! times = Some (Float <$> elapsed (clocks evs)).
Proof.
  apply (validate_puts_latencies 4 0 Demo.three Demo.overwritten);
    [reflexivity | simpl; lia].
Defined.

Lemma validate_puts_nothing_to_read_empty :
  exists times s',
    validate_puts 1 0 nothing_accepted = Ret (true, None, times) s' /\
    trace s' = trace nothing_accepted ++ [Connect; Print ValidationOk] /\
    heap s' !! times = Some [].
Proof.
  apply (validate_puts_nothing_to_read 1 0 nothing_accepted);
    [reflexivity | lia].
Defined.

Section RepeatedKey.

Context {E : Env}.

(** X10.  The accepted pairs are not deduplicated: when the same key was
    accepted with two different values, and the gets are decided by the
    contents of the store (which connecting, reading the clock and getting
    leave alone) and succeed for that key, [validate_puts] reports a
    mismatch, whatever the store holds. *)
Theorem validate_puts_repeated_key {V} (view : World -> V)
    fuel kvs pairs (s : state) i j k v1 v2 :
  (forall w, view (connect_to_host w).2 = view w) ->
  (forall w, view (time_time w).2 = view w) ->
  (forall c k w, view (get_request c k w).2 = view w) ->
  (forall c c' k w w', view w = view w' ->
     (get_request c k w).1.1.1 = (get_request c' k w').1.1.1 /\
     (get_request c k w).1.2 = (get_request c' k w').1.2) ->
  (forall c w, view w = view (world s) -> (get_request c k w).1.1.1 = true) ->
  heap s !! kvs = Some (pair_elem <$> pairs) ->
  length pairs < fuel ->
  pairs !! i = Some (k, v1) ->
  pairs !! j = Some (k, v2) ->
  v1 <> v2 ->
  exists mismatch times s',
    validate_puts fuel kvs s = Ret (false, Some mismatch, times) s'.
Proof.
  intros Hconn Hclock Hget Hdet Hok Hk Hfuel Hi Hj Hv.
  set (c0 := (connect_to_host (world s)).1).
  set (I := fun w => view w = view (world s)).
  set (R := fun k' (ok : bool) (dv : dbval) =>
              ok = (get_request c0 k' (world s)).1.1.1 /\
              dv = (get_request c0 k' (world s)).1.2).
  assert (HIR : reads_keep I R).
  { unfold reads_keep, I, R. split_and!.
    - intros w Hw. rewrite Hclock. exact Hw.
    - intros c k' w Hw. rewrite Hget. exact Hw.
    - intros c k' w Hw. apply Hdet, Hw. }
  assert (HIc : forall w, I w -> I (connect_to_host w).2).
  { unfold I. intros w Hw. rewrite Hconn. exact Hw. }
  destruct (validate_puts_spec fuel kvs pairs s Hk Hfuel)
    as (found & times & s' & evs & ts & Hrun & _ & _ & _ & _ & _ & Hval & Hinv).
  destruct (Hinv I R HIR HIc eq_refl) as [_ HR].
  destruct found as [mismatch|]; [exists mismatch, times, s'; exact Hrun|].
  exfalso.
  destruct (validated_none_at _ _ Hval i k v1 Hi) as (ok1 & dv1 & Hg1 & Hor1).
  destruct (validated_none_at _ _ Hval j k v2 Hj) as (ok2 & dv2 & Hg2 & Hor2).
  pose proof (Forall_lookup_1 _ _ _ _ HR Hg1) as [Hok1 Hdv1].
  pose proof (Forall_lookup_1 _ _ _ _ HR Hg2) as [Hok2 Hdv2].
  cbn in Hok1, Hdv1, Hok2, Hdv2.
  rewrite (Hok c0 (world s) eq_refl) in Hok1, Hok2. subst ok1 ok2.
  destruct Hor1 as [|Hor1]; [discriminate|].
  destruct Hor2 as [|Hor2]; [discriminate|].
  congruence.
Qed.

End RepeatedKey.

Lemma demo_get_a_succeeds c w :
  Demo.contents w = Demo.contents (world repeated) ->
  (Demo.get c "a" w).1.1.1 = true.
Proof.
  unfold Demo.contents, Demo.get, Demo.unreachable. intros [= -> ->]. reflexivity.
Qed.

(** The key [a] accepted with [1] and then with [4]: a mismatch. *)
Lemma validate_puts_repeated_key_a :
  exists mismatch times s',
    validate_puts 4 0 repeated = Ret (false, Some mismatch, times) s'.
Proof.
  apply (validate_puts_repeated_key (E := Demo.env) Demo.contents
           4 0 repeated_pairs repeated 0 2 "a" "1" "4").
  - intros w. reflexivity.
  - intros w. reflexivity.
  - exact demo_get_keeps.
  - exact demo_get_decided.
  - exact demo_get_a_succeeds.
  - reflexivity.
  - simpl. lia.
  - reflexivity.
  - reflexivity.
  - discriminate.
Defined.

(** ** The script as a whole *)

Lemma clocks_app tr1 tr2 : clocks (tr1 ++ tr2) = clocks tr1 ++ clocks tr2.
Proof. apply omap_app. Qed.

Lemma always_app tr1 tr2 : always_of (tr1 ++ tr2) = always_of tr1 ++ always_of tr2.
Proof. apply omap_app. Qed.

Lemma puts_get_blocks rounds : puts (concat (get_block <$> rounds)) = [].
Proof.
  induction rounds as [|r rounds IH]; [reflexivity|].
  cbn [fmap list_fmap concat]. rewrite puts_app, IH.
  unfold get_block. rewrite puts_app.
  destruct (negb (g_success r)); [reflexivity|].
  destruct (bool_decide _); reflexivity.
Qed.

Lemma acknowledged_get_blocks rounds :
  acknowledged (concat (get_block <$> rounds)) = [].
Proof.
  induction rounds as [|r rounds IH]; [reflexivity|].
  cbn [fmap list_fmap concat]. rewrite acknowledged_app, IH.
  unfold get_block. rewrite acknowledged_app.
  destruct (negb (g_success r)); [reflexivity|].
  destruct (bool_decide _); reflexivity.
Qed.

Lemma always_get_blocks rounds : always_of (concat (get_block <$> rounds)) = [].
Proof.
  induction rounds as [|r rounds IH]; [reflexivity|].
  cbn [fmap list_fmap concat]. rewrite always_app, IH.
  unfold get_block. rewrite always_app.
  destruct (negb (g_success r)); [reflexivity|].
  destruct (bool_decide _); reflexivity.
Qed.

Lemma elapsed_put_blocks rounds cs :
  elapsed (clocks (concat (put_block <$> rounds)) ++ cs) =
  ((fun r => p_etime r - p_stime r)%float <$> rounds) ++ elapsed cs.
Proof.
  induction rounds as [|r rounds IH]; [reflexivity|].
  cbn [fmap list_fmap concat]. rewrite clocks_app. cbn. f_equal. exact IH.
Qed.

Lemma elapsed_get_blocks rounds cs :
  elapsed (clocks (concat (get_block <$> rounds)) ++ cs) =
  ((fun r => g_etime r - g_stime r)%float <$> rounds) ++ elapsed cs.
Proof.
  induction rounds as [|r rounds IH]; [reflexivity|].
  cbn [fmap list_fmap concat]. rewrite clocks_app.
  unfold get_block at 1. rewrite clocks_app.
  replace (clocks (if negb (g_success r) then _ else _)) with (@nil float).
  - cbn. f_equal. exact IH.
  - destruct (negb (g_success r)); [reflexivity|].
    destruct (bool_decide _); reflexivity.
Qed.

(** A reading of at least one pair issues at least one get. *)
Lemma validated_nonempty kvs gs found :
  validated kvs gs found -> kvs <> [] -> gs <> [].
Proof. intros H Hne. destruct H; [contradiction | discriminate ..]. Qed.

Section Script.

Context {E : Env}.

(** X12.  When the generator asks for at least one request and at least
    one put is acknowledged, the script runs to its end and records three
    [always] assertions, in this order: the percentile (at 0.95, in ms) of
    the put latencies is below 10; the reading of the acknowledged pairs
    found no mismatch; the percentile of the get latencies is below 10.
    The latencies are those of the puts followed by those of the gets. *)
Theorem main_records_three_verdicts fuel (s : state) :
  (1 <= request_count s)%Z ->
  (request_count s < Z.of_nat fuel)%Z ->
  acknowledged (drop (length (trace s)) (trace (final (simulate_traffic s) s))) <> [] ->
  exists s' evs put_times get_times p_put p_get found,
    main fuel s = Ret tt s' /\
    trace s' = trace s ++ evs /\
    elapsed (clocks evs) = put_times ++ get_times /\
    length put_times = length (puts evs) /\
    length get_times = length (gets evs) /\
    Np.percentile put_times 0.95 = Some p_put /\
    Np.percentile get_times 0.95 = Some p_get /\
    validated (acknowledged evs) (gets evs) found /\
    always_of evs =
      [(negb ((10 <=? p_put * 1000)%float), put_time_name);
       (all_matched found, consistent_name);
       (negb ((10 <=? p_get * 1000)%float), get_time_name)].
Proof.
  intros Hn Hfuel Hack.
  (* the traffic *)
  destruct (simulate_traffic_rounds s)
    as (kvs & times & s1 & rounds & Hrun1 & Hlen1 & Htr1 & Ht1).
  destruct (simulate_traffic_spec s)
    as (kvs' & times' & s1' & evs1 & ts1 & Hrun1' & Htr1' & _ & _ & _ & Hk1 & _).
  rewrite Hrun1 in Hrun1'. injection Hrun1' as <- <- <-.
  rewrite Hrun1 in Hack. cbn [final] in Hack.
  rewrite Htr1' in Hack. rewrite drop_app_length in Hack.
  rewrite Htr1 in Htr1'. apply app_inv_head in Htr1'.
  set (lat1 := (fun r => p_etime r - p_stime r)%float <$> rounds).
  assert (Hlat1 : put_latency <$> rounds = Float <$> lat1).
  { unfold lat1. rewrite <- list_fmap_compose. reflexivity. }
  rewrite Hlat1 in Ht1.
  assert (Hne1 : lat1 <> []).
  { unfold lat1. destruct rounds; [simpl in Hlen1; lia | discriminate]. }
  destruct (NpFacts.percentile_some lat1 0.95 Hne1) as [p1 Hp1].
  (* the readings *)
  set (pairs := acknowledged evs1) in *.
  assert (Hpairs : length pairs < fuel).
  { pose proof (acknowledged_le_puts evs1) as Hle. fold pairs in Hle.
    rewrite <- Htr1', !puts_app, puts_put_blocks in Hle. cbn in Hle.
    rewrite app_nil_r, length_fmap in Hle. lia. }
  unfold main. rewrite (bind_Ret _ _ _ _ _ Hrun1). cbn beta iota.
  rewrite (bind_Ret _ _ _ _ _ (validate_time_spec _ 10 _ _ _ Ht1 Hp1)).
  cbn beta iota. rewrite bind_emit. cbn [world heap trace].
  match goal with |- context [bind (validate_puts _ _) _ ?s3] =>
    destruct (validate_puts_rounds fuel kvs pairs s3)
      as (found & times2 & s4 & rounds2 & Hrun2 & Htr2 & Ht2 & _);
    [exact Hk1 | exact Hpairs |];
    destruct (validate_puts_spec fuel kvs pairs s3)
      as (found' & times2' & s4' & evs2 & ts2 & Hrun2' & Htr2' & _ & Hh2 & _ & _ & Hval & _);
    [exact Hk1 | exact Hpairs |]
  end.
  rewrite Hrun2 in Hrun2'. injection Hrun2' as _ <- <- <-.
  rewrite Htr2 in Htr2'. apply app_inv_head in Htr2'.
  set (lat2 := (fun r => g_etime r - g_stime r)%float <$> rounds2).
  assert (Hlat2 : get_latency <$> rounds2 = Float <$> lat2).
  { unfold lat2. rewrite <- list_fmap_compose. reflexivity. }
  rewrite Hlat2 in Ht2.
  assert (Hgets2 : gets evs2 = (fun r => (g_key r, g_success r, g_found r)) <$> rounds2).
  { rewrite <- Htr2', !gets_app, gets_get_blocks.
    destruct (all_matched found); cbn; rewrite app_nil_r; reflexivity. }
  assert (Hne2 : lat2 <> []).
  { pose proof (validated_nonempty _ _ _ Hval Hack) as Hg.
    rewrite Hgets2 in Hg. unfold lat2. destruct rounds2; [contradiction | discriminate]. }
  destruct (NpFacts.percentile_some lat2 0.95 Hne2) as [p2 Hp2].
  rewrite (bind_Ret _ _ _ _ _ Hrun2). cbn beta iota.
  rewrite bind_emit.
  match goal with |- context [bind (validate_time _ _) _ ?s5] =>
    rewrite (bind_Ret _ _ _ _ _ (validate_time_spec times2 10 s5 lat2 p2 Ht2 Hp2))
  end.
  cbn beta iota. unfold emit. cbn [world heap trace].
  eexists _, _, lat1, lat2, p1, p2, found.
  split; [reflexivity|].
  rewrite Htr2. cbn [trace]. rewrite Htr1, <- !app_assoc.
  split; [reflexivity|].
  rewrite !clocks_app, !puts_app, !gets_app, !acknowledged_app, !always_app.
  rewrite puts_put_blocks, puts_get_blocks, gets_put_blocks, gets_get_blocks,
    acknowledged_get_blocks, always_put_blocks, always_get_blocks.
  assert (Hack1 : pairs = acknowledged (concat (put_block <$> rounds))).
  { unfold pairs. rewrite <- Htr1', !acknowledged_app. cbn.
    rewrite app_nil_r. reflexivity. }
  rewrite <- Hack1, <- Hgets2.
  replace (clocks (if all_matched found then [Print ValidationOk] else []))
    with (@nil float) by (destruct (all_matched found); reflexivity).
  replace (puts (if all_matched found then [Print ValidationOk] else []))
    with (@nil (string * string * bool)) by (destruct (all_matched found); reflexivity).
  replace (gets (if all_matched found then [Print ValidationOk] else []))
    with (@nil (string * bool * dbval)) by (destruct (all_matched found); reflexivity).
  replace (acknowledged (if all_matched found then [Print ValidationOk] else []))
    with (@nil (string * string)) by (destruct (all_matched found); reflexivity).
  replace (always_of (if all_matched found then [Print ValidationOk] else []))
    with (@nil (bool * string)) by (destruct (all_matched found); reflexivity).
  cbn. rewrite !app_nil_r.
  rewrite elapsed_put_blocks.
  rewrite <- (app_nil_r (clocks (concat (get_block <$> rounds2)))).
  rewrite (elapsed_get_blocks rounds2 []). cbn.
  rewrite app_nil_r. fold lat1 lat2.
  split_and!; try reflexivity; try assumption.
  - unfold lat1. rewrite !length_fmap. reflexivity.
  - rewrite Hgets2. unfold lat2. rewrite !length_fmap. reflexivity.
Qed.

End Script.

(** Five requests, four of them acknowledged: the script runs to its end
    with its three verdicts. *)
Lemma main_records_three_verdicts_five :
  exists s' evs put_times get_times p_put p_get found,
    main 6 Demo.five = Ret tt s' /\
    trace s' = trace Demo.five ++ evs /\
    elapsed (clocks evs) = put_times ++ get_times /\
    length put_times = length (puts evs) /\
    length get_times = length (gets evs) /\
    Np.percentile put_times 0.95 = Some p_put /\
    Np.percentile get_times 0.95 = Some p_get /\
    validated (acknowledged evs) (gets evs) found /\
    always_of evs =
      [(negb ((10 <=? p_put * 1000)%float), put_time_name);
       (all_matched found, consistent_name);
       (negb ((10 <=? p_get * 1000)%float), get_time_name)].
Proof.
  apply (main_records_three_verdicts 6 Demo.five).
  - change (request_count Demo.five) with 5%Z. lia.
  - change (request_count Demo.five) with 5%Z. lia.
  - vm_compute. discriminate.
Defined.

Example main_five_verdicts :
  always_of (trace (final (main 6 Demo.five) Demo.five)) =
  [(true, put_time_name); (true, consistent_name); (true, get_time_name)].
Proof. vm_compute. reflexivity. Qed.

(** The latencies 0.007698132256436143 s and 0.25 s: the percentile is
    computed as 10 ms exactly, which meets the threshold of the script, and
    the verdict is [False]. *)
Example validate_time_meets_threshold :
  match validate_time 0 10
          (Demo.sampled [0.007698132256436143%float; 0.25%float]) with
  | Ret r _ => r = (false, 10%float)
  | _ => False
  end.
Proof. vm_compute. reflexivity. Qed.

(** ** What is printed, and the threshold *)

Lemma prints_put_blocks rounds :
  prints (concat (put_block <$> rounds)) =
  (fun r => if p_success r then PutOk (p_key r) (p_value r)
            else PutFailed (p_key r) (p_value r)) <$> rounds.
Proof.
  induction rounds as [|r rounds IH]; [reflexivity|].
  cbn [fmap list_fmap concat]. unfold prints in *.
  rewrite omap_app, IH. reflexivity.
Qed.

Section Lines.

Context {E : Env}.

(** X14.  [simulate_traffic] prints one line per put, in the order of the
    puts: the line of a successful put for a put that reported success,
    the line of an unsuccessful one otherwise, each with the key and the
    value of the put; and, last, the line "traffic simulated". *)
Theorem simulate_traffic_prints (s : state) :
  exists kvs times s' evs,
    simulate_traffic s = Ret (kvs, times) s' /\
    trace s' = trace s ++ evs /\
    prints evs =
      ((fun p : string * string * bool =>
          if p.2 then PutOk p.1.1 p.1.2 else PutFailed p.1.1 p.1.2)
         <$> puts evs) ++ [TrafficSimulated].
Proof.
  destruct (simulate_traffic_rounds s)
    as (kvs & times & s' & rounds & Hrun & _ & Htr & _).
  eexists kvs, times, s', _. split; [exact Hrun|]. split; [exact Htr|].
  unfold prints. rewrite !puts_app, !omap_app.
  fold (prints (concat (put_block <$> rounds))).
  rewrite puts_put_blocks, prints_put_blocks.
  cbn. rewrite !app_nil_r, <- list_fmap_compose. reflexivity.
Qed.

(** X13.  On the same samples, a verdict of [validate_time] that passes
    under a threshold passes under every larger one, with the same
    percentile. *)
Theorem validate_time_larger_threshold times t t' samples (s : state) :
  samples <> [] ->
  heap s !! times = Some (Float <$> samples) ->
  float_le t t' ->
  exists pct95 b b' s1 s2,
    validate_time times t s = Ret (b, pct95) s1 /\
    validate_time times t' s = Ret (b', pct95) s2 /\
    (b = true -> b' = true).
Proof.
  intros Hne Hh Hle.
  destruct (NpFacts.percentile_some samples 0.95 Hne) as [p Hp].
  eexists _, _, _, _, _.
  split; [apply (validate_time_spec _ _ _ _ _ Hh Hp)|].
  split; [apply (validate_time_spec _ _ _ _ _ Hh Hp)|].
  destruct (t <=? p * 1000)%float eqn:H1; [discriminate|].
  intros _. destruct (t' <=? p * 1000)%float eqn:H2; [|reflexivity].
  pose proof (NpFacts.leb_trans _ _ _ Hle H2) as H3.
  unfold float_le in H3. congruence.
Qed.

End Lines.

Lemma validate_time_larger_threshold_three :
  exists pct95 b b' s1 s2,
    validate_time 0 2 (Demo.sampled [0.003%float; 0.001%float; 0.002%float]) =
      Ret (b, pct95) s1 /\
    validate_time 0 10 (Demo.sampled [0.003%float; 0.001%float; 0.002%float]) =
      Ret (b', pct95) s2 /\
    (b = true -> b' = true).
Proof.
  apply (validate_time_larger_threshold 0 2 10 [0.003%float; 0.001%float; 0.002%float]);
    [discriminate | reflexivity | reflexivity].
Defined.
